(** * LyricalSync AI: the timed-lyrics editing core

    A shallow embedding of the timestamp codec ([utils.ts]), the line store,
    the active-line resolver and the LRC serializer ([App.tsx]), the nudge
    control of [EditorRow.tsx] and the response mapping of
    [services/geminiService.ts], followed by the properties the specification
    states about them.

    Numbers.  A JavaScript [number] is modelled in two ways.
    - In the main development a finite number is an exact rational ([Q]):
      arithmetic is exact, and [NaN] appears only as the [None] of the two
      number parsers, where the source tests [isNaN].  Infinite values and
      rounding have no counterpart there.
    - Module [Binary64] re-states the time codec over IEEE 754 binary64
      ([PrimFloat]), the representation the program really runs on, to
      evaluate it where rounding matters.

    Strings are sequences of 8-bit characters holding text in UTF-8; the
    white space of ECMAScript is recognised in that encoding. *)

From Stdlib Require Import ZArith NArith QArith Qround Lia Lqa Bool.
From Stdlib Require Import String Ascii List.
From Stdlib Require Import Decimal DecimalString DecimalN DecimalPos.
From Stdlib Require Import Sorting.Sorted Sorting.Permutation.
From Stdlib Require Import Floats.
Import ListNotations.

(* ================================================================= *)
(** ** ECMAScript built-ins used by the sources *)

Module JS.

Local Open Scope string_scope.

(** The UTF-8 encoding of a code point. *)
Definition utf8 (codePoint : N) : string :=
  let lead (n : N) : ascii := ascii_of_N n in
  let tail (n : N) : ascii := ascii_of_N (128 + n mod 64)%N in
  if (codePoint <? 0x80)%N then
    String (lead codePoint) EmptyString
  else if (codePoint <? 0x800)%N then
    String (lead (192 + codePoint / 64)%N)
      (String (tail codePoint) EmptyString)
  else if (codePoint <? 0x10000)%N then
    String (lead (224 + codePoint / 4096)%N)
      (String (tail (codePoint / 64)%N) (String (tail codePoint) EmptyString))
  else
    String (lead (240 + codePoint / 262144)%N)
      (String (tail (codePoint / 4096)%N)
         (String (tail (codePoint / 64)%N)
            (String (tail codePoint) EmptyString))).

(** The characters [String.prototype.trim], [parseInt] and [parseFloat]
    skip: [WhiteSpace] (TAB, VT, FF, ZWNBSP and the space separators of
    Unicode) and [LineTerminator] (LF, CR, LS, PS), each in UTF-8. *)
Definition whiteSpaceCodePoints : list N :=
  [0x0009; 0x000A; 0x000B; 0x000C; 0x000D; 0x0020; 0x00A0; 0x1680;
   0x2000; 0x2001; 0x2002; 0x2003; 0x2004; 0x2005; 0x2006; 0x2007;
   0x2008; 0x2009; 0x200A; 0x2028; 0x2029; 0x202F; 0x205F; 0x3000;
   0xFEFF]%N.

Definition whiteSpaceChars : list string :=
  Eval cbv in map utf8 whiteSpaceCodePoints.

(** Whether a string is one white-space character. *)
Definition isWhiteSpace (w : string) : bool :=
  existsb (String.eqb w) whiteSpaceChars.

(** [String.prototype.trimStart]: white-space characters of one, two or
    three bytes are dropped from the front. *)
Fixpoint trimStart (s : string) : string :=
  match s with
  | EmptyString => EmptyString
  | String a r1 =>
      if isWhiteSpace (String a EmptyString) then trimStart r1
      else
        match r1 with
        | EmptyString => s
        | String b r2 =>
            if isWhiteSpace (String a (String b EmptyString))
            then trimStart r2
            else
              match r2 with
              | EmptyString => s
              | String c r3 =>
                  if isWhiteSpace (String a (String b (String c EmptyString)))
                  then trimStart r3
                  else s
              end
        end
  end.

(** Whether a string holds white space only. *)
Fixpoint blankb (s : string) : bool :=
  match s with
  | EmptyString => true
  | String a r1 =>
      if isWhiteSpace (String a EmptyString) then blankb r1
      else
        match r1 with
        | EmptyString => false
        | String b r2 =>
            if isWhiteSpace (String a (String b EmptyString)) then blankb r2
            else
              match r2 with
              | EmptyString => false
              | String c r3 =>
                  isWhiteSpace (String a (String b (String c EmptyString)))
                  && blankb r3
              end
        end
  end.

(** [String.prototype.trimEnd]: the string is cut where only white space
    follows. *)
Fixpoint trimEnd (s : string) : string :=
  match s with
  | EmptyString => EmptyString
  | String c r => if blankb s then EmptyString else String c (trimEnd r)
  end.

Definition trim (s : string) : string := trimEnd (trimStart s).

(** [s.split(sep)] for a one-character separator: never the empty list. *)
Fixpoint split (sep : ascii) (s : string) : list string :=
  match s with
  | EmptyString => [EmptyString]
  | String c r =>
      if Ascii.eqb c sep then EmptyString :: split sep r
      else match split sep r with
           | p :: ps => String c p :: ps
           | [] => [String c EmptyString]
           end
  end.

(** [parts.join(sep)]. *)
Definition join (sep : string) (parts : list string) : string :=
  String.concat sep parts.

(** [s.replace(/[\[\]]/g, '')]: every square bracket is deleted. *)
Fixpoint replace_brackets (s : string) : string :=
  match s with
  | EmptyString => EmptyString
  | String c r =>
      if Ascii.eqb c "["%char || Ascii.eqb c "]"%char then replace_brackets r
      else String c (replace_brackets r)
  end.

Fixpoint repeat_char (n : nat) (c : ascii) : string :=
  match n with
  | O => EmptyString
  | S k => String c (repeat_char k c)
  end.

(** [s.padStart(targetLength, pad)] for a one-character pad string. *)
Definition padStart (targetLength : nat) (pad : ascii) (s : string) : string :=
  repeat_char (targetLength - String.length s) pad ++ s.

(** [n.toString()] for an integral number: decimal digits, a leading minus
    sign for negatives.  (ECMAScript switches to exponent notation from
    10^21 on; an integer of the exact model is printed in full.) *)
Definition toString (z : Z) : string :=
  NilZero.string_of_int (Z.to_int z).

(** *** Lexing decimal digits *)

Definition digit (c : ascii) : option (uint -> uint) :=
  match c with
  | "0"%char => Some D0 | "1"%char => Some D1 | "2"%char => Some D2
  | "3"%char => Some D3 | "4"%char => Some D4 | "5"%char => Some D5
  | "6"%char => Some D6 | "7"%char => Some D7 | "8"%char => Some D8
  | "9"%char => Some D9
  | _ => None
  end.

(** The longest run of decimal digits at the front of [s], and the rest. *)
Fixpoint take_digits (s : string) : uint * string :=
  match s with
  | EmptyString => (Nil, EmptyString)
  | String c r =>
      match digit c with
      | Some d => let (ds, rest) := take_digits r in (d ds, rest)
      | None => (Nil, s)
      end
  end.

(** An optional sign: [true] for a minus. *)
Definition take_sign (s : string) : bool * string :=
  match s with
  | String "-"%char r => (true, r)
  | String "+"%char r => (false, r)
  | _ => (false, s)
  end.

(** [parseInt(s, 10)]: leading white space, an optional sign, then the
    longest run of digits; [None] is [NaN] (no digit found). *)
Definition parseInt (s : string) : option Z :=
  let (neg, s1) := take_sign (trimStart s) in
  match take_digits s1 with
  | (Nil, _) => None
  | (d, _) => let v := Z.of_N (N.of_uint d) in
              Some (if neg then (- v)%Z else v)
  end.

(** What [parseFloat] reads at the front of a string: nothing ([LNaN]), the
    word [Infinity], or a decimal literal [(-1)^neg * mant * 10^exp10]. *)
Inductive literal : Type :=
| LNaN
| LInfinity (neg : bool)
| LDecimal (neg : bool) (mant : N) (exp10 : Z).

(** [ExponentPart]: [e] or [E], an optional sign and at least one digit;
    an incomplete exponent is not consumed and counts as 0. *)
Definition take_exponent (s : string) : Z :=
  match s with
  | String c r =>
      if Ascii.eqb c "e"%char || Ascii.eqb c "E"%char then
        let (neg, r1) := take_sign r in
        match take_digits r1 with
        | (Nil, _) => 0%Z
        | (d, _) => let v := Z.of_N (N.of_uint d) in
                    if neg then (- v)%Z else v
        end
      else 0%Z
  | EmptyString => 0%Z
  end.

Definition starts_with (p s : string) : bool := String.prefix p s.

(** The longest prefix of [trimStart s] that is a [StrDecimalLiteral]. *)
Definition lex_float (s : string) : literal :=
  let (neg, s1) := take_sign (trimStart s) in
  if starts_with "Infinity" s1 then LInfinity neg
  else
    let (ip, s2) := take_digits s1 in
    let (fp, s3) :=
      match s2 with
      | String "."%char r => take_digits r
      | _ => (Nil, s2)
      end in
    match ip, fp with
    | Nil, Nil => LNaN
    | _, _ =>
        let k := nb_digits fp in
        LDecimal neg
          (N.of_uint ip * 10 ^ N.of_nat k + N.of_uint fp)%N
          (take_exponent s3 - Z.of_nat k)%Z
    end.

(** *** Numbers of the exact model *)

Definition ltb (x y : Q) : bool := negb (Qle_bool y x).
Definition leb (x y : Q) : bool := Qle_bool x y.

(** [Math.floor] and [Math.max]. *)
Definition Math_floor (x : Q) : Z := Qfloor x.
Definition Math_max (x y : Q) : Q := if ltb x y then y else x.

(** Rounding towards zero, as the quotient inside [%] is rounded. *)
Definition truncate (x : Q) : Z :=
  if Qle_bool 0 x then Qfloor x else Qceiling x.

(** [x % y]: the remainder has the sign of the dividend. *)
Definition rem (x y : Q) : Q := x - y * inject_Z (truncate (x / y)).

(** The value of what [parseFloat] read; [None] is [NaN].  The word
    [Infinity] denotes no rational: the exact model reads it as [NaN]. *)
Definition parseFloat (s : string) : option Q :=
  match lex_float s with
  | LNaN => None
  | LInfinity _ => None
  | LDecimal neg mant exp10 =>
      let v := inject_Z (Z.of_N mant) * Qpower 10 exp10 in
      Some (if neg then - v else v)
  end.

(** *** Values and their comparison with a number *)

(** The values [JSON.parse] yields; [VUndefined] is what reading a missing
    property gives.  Of an object one thing matters to a conversion: whether
    it has a property of its own named [toString], which holds no function
    and so leaves the object without a primitive value. *)
#[warnings="-register-all"]
Inductive Value : Type :=
| VUndefined
| VNull
| VBoolean (b : bool)
| VNumber (x : Q)
| VString (s : string)
| VArray (items : list Value)
| VObject (ownToString : bool).

(** A number: [NaN], a rational or an infinity. *)
Inductive Number : Type :=
| NaN
| Finite (x : Q)
| Infinite (neg : bool).

(** A digit of a [NonDecimalIntegerLiteral] and the radix its prefix
    letter announces. *)
Definition radix_digit (c : ascii) : option Z :=
  let n := N_of_ascii c in
  if ((48 <=? n) && (n <=? 57))%N then Some (Z.of_N (n - 48))
  else if ((97 <=? n) && (n <=? 102))%N then Some (Z.of_N (n - 87))
  else if ((65 <=? n) && (n <=? 70))%N then Some (Z.of_N (n - 55))
  else None.

Definition radix_of (c : ascii) : option Z :=
  match c with
  | "x"%char | "X"%char => Some 16%Z
  | "o"%char | "O"%char => Some 8%Z
  | "b"%char | "B"%char => Some 2%Z
  | _ => None
  end.

(** The value of a string made of digits of the radix only. *)
Fixpoint radix_value (radix acc : Z) (s : string) : option Z :=
  match s with
  | EmptyString => Some acc
  | String c r =>
      match radix_digit c with
      | Some d => if (d <? radix)%Z
                  then radix_value radix (radix * acc + d)%Z r
                  else None
      | None => None
      end
  end.

(** An optional [ExponentPart] that ends the string. *)
Definition exponent_to_end (s : string) : option Z :=
  match s with
  | EmptyString => Some 0%Z
  | String c r =>
      if Ascii.eqb c "e"%char || Ascii.eqb c "E"%char then
        let (neg, r1) := take_sign r in
        match take_digits r1 with
        | (Nil, _) => None
        | (d, EmptyString) => let v := Z.of_N (N.of_uint d) in
                              Some (if neg then (- v)%Z else v)
        | (_, String _ _) => None
        end
      else None
  end.

(** [StringToNumber]: the whole string, white space at its ends apart, is a
    [StrNumericLiteral]; the empty string is 0. *)
Definition StrDecimalLiteral (t : string) : Number :=
  let (neg, s1) := take_sign t in
  if String.eqb s1 "Infinity" then Infinite neg
  else
    let (ip, s2) := take_digits s1 in
    let (fp, s3) :=
      match s2 with
      | String "."%char r => take_digits r
      | _ => (Nil, s2)
      end in
    match ip, fp with
    | Nil, Nil => NaN
    | _, _ =>
        match exponent_to_end s3 with
        | Some e =>
            let k := nb_digits fp in
            let v := inject_Z (Z.of_N (N.of_uint ip * 10 ^ N.of_nat k
                                       + N.of_uint fp))
                     * Qpower 10 (e - Z.of_nat k) in
            Finite (if neg then - v else v)
        | None => NaN
        end
    end.

Definition StringToNumber (s : string) : Number :=
  match trim s with
  | EmptyString => Finite 0
  | String "0"%char (String p r) as t =>
      match radix_of p with
      | Some radix =>
          match r with
          | EmptyString => NaN
          | String _ _ =>
              match radix_value radix 0 r with
              | Some v => Finite (inject_Z v)
              | None => NaN
              end
          end
      | None => StrDecimalLiteral t
      end
  | t => StrDecimalLiteral t
  end.

(** Whether [ToPrimitive] throws a [TypeError]: an object with a [toString]
    of its own has no callable [toString] and its [valueOf] gives the
    object back; an array asks each of its items for a string. *)
Fixpoint ToPrimitive_throws (v : Value) : bool :=
  match v with
  | VObject ownToString => ownToString
  | VArray items => existsb ToPrimitive_throws items
  | _ => false
  end.

(** [ToNumber], for a value whose [ToPrimitive] does not throw.  An object
    gives the string [[object Object]], which is no number.  An array gives
    its items' strings joined by commas, [null] and [undefined] giving the
    empty string: with two items or more the string holds a comma and is
    no number; the string printed for a number reads back as the number. *)
Fixpoint ToNumber (v : Value) : Number :=
  match v with
  | VUndefined => NaN
  | VNull => Finite 0
  | VBoolean b => Finite (if b then 1 else 0)
  | VNumber x => Finite x
  | VString s => StringToNumber s
  | VObject _ => NaN
  | VArray [] => Finite 0
  | VArray [item] =>
      match item with
      | VUndefined | VNull => Finite 0
      | VBoolean _ => NaN
      | VNumber _ | VString _ | VArray _ | VObject _ => ToNumber item
      end
  | VArray (_ :: _ :: _) => NaN
  end.

(** [v < y] for a number [y]; [None] is the [TypeError] of [ToPrimitive].
    Numbers are compared as the exact rationals they are written as. *)
Definition lessThan (v : Value) (y : Q) : option bool :=
  if ToPrimitive_throws v then None
  else Some match ToNumber v with
            | NaN => false
            | Finite x => ltb x y
            | Infinite neg => neg
            end.

(** *** Arrays *)

Section Arrays.
Context {A : Type}.

(** [Array.prototype.sort(compare)] is stable: an element moves behind a
    later one only when [compare] puts it strictly after. *)
Fixpoint insert (compare : A -> A -> Q) (x : A) (l : list A) : list A :=
  match l with
  | [] => [x]
  | y :: r => if ltb 0 (compare x y) then y :: insert compare x r
              else x :: l
  end.

Definition sort (compare : A -> A -> Q) (l : list A) : list A :=
  fold_right (insert compare) [] l.

(** [a.splice(start, 0, x)] on a copy: [x] is placed at position [start]
    (at the end when [start] is past the length). *)
Definition splice_insert (start : nat) (x : A) (a : list A) : list A :=
  firstn start a ++ x :: skipn start a.
End Arrays.

(** *** More string built-ins *)

(** [s.toLowerCase()] on the letters A to Z; other characters are left as
    they are. *)
Definition lower (c : ascii) : ascii :=
  let n := N_of_ascii c in
  if ((65 <=? n) && (n <=? 90))%N then ascii_of_N (n + 32) else c.

Fixpoint toLowerCase (s : string) : string :=
  match s with
  | EmptyString => EmptyString
  | String c r => String (lower c) (toLowerCase r)
  end.



End JS.

(* ================================================================= *)
(** ** [utils.ts]: the time codec *)

Local Open Scope string_scope.
Local Open Scope Q_scope.

(** Format seconds to [[mm:ss.xx]]. *)
Definition formatLrcTime (seconds : Q) : string :=
  let m := JS.Math_floor (seconds / 60) in
  let s := JS.Math_floor (JS.rem seconds 60) in
  let ms := JS.Math_floor (JS.rem seconds 1 * 100) in
  let mStr := JS.padStart 2 "0" (JS.toString m) in
  let sStr := JS.padStart 2 "0" (JS.toString s) in
  let msStr := JS.padStart 2 "0" (JS.toString ms) in
  ("[" ++ mStr ++ ":" ++ sStr ++ "." ++ msStr ++ "]")%string.

(** Parse [[mm:ss.xx]] or [mm:ss.xx] to seconds. *)
Definition parseLrcTime (timeStr : string) : Q :=
  let cleanStr := JS.replace_brackets timeStr in
  match JS.split ":" cleanStr with
  | [p0; p1] =>
      match JS.parseInt p0, JS.parseFloat p1 with
      | Some minutes, Some seconds => inject_Z minutes * 60 + seconds
      | _, _ => 0
      end
  | _ => 0
  end.

(* ================================================================= *)
(** ** [types.ts] *)

Record LyricLine : Type := mkLine {
  id : string;
  timestamp : Q;                 (* in seconds *)
  text : string;
  needsReview : option bool      (* optional: if AI is unsure *)
}.

Record MetaData : Type := mkMeta {
  title : string;
  artist : string;
  album : string;
  by_ : string
}.

Inductive AppStatus : Type := IDLE | PROCESSING | EDITING | ERROR.

(** [Partial<LyricLine>]: each field may be absent. *)
Record PartialLyricLine : Type := mkPartial {
  p_id : option string;
  p_timestamp : option Q;
  p_text : option string;
  p_needsReview : option bool
}.

(** The object spread [{ ...line, ...updates }]. *)
Definition spread (line : LyricLine) (updates : PartialLyricLine) : LyricLine :=
  {| id := match p_id updates with Some v => v | None => id line end;
     timestamp := match p_timestamp updates with
                  | Some v => v | None => timestamp line end;
     text := match p_text updates with Some v => v | None => text line end;
     needsReview := match p_needsReview updates with
                    | Some v => Some v | None => needsReview line end |}.

(* ================================================================= *)
(** ** Effects: exceptions and the source of fresh ids *)

(** A computation returns or throws an [Error] with its [message]. *)
Inductive Result (A : Type) : Type :=
| Ok (a : A)
| Throw (message : string).
Arguments Ok {A} a.
Arguments Throw {A} message.

(** [generateId] draws from [Math.random]: the model reads the strings it
    yields from an oracle and threads the number of draws made so far. *)
Definition Gen (A : Type) : Type := (nat -> string) -> nat -> Result A * nat.

Definition ret {A} (a : A) : Gen A := fun _ n => (Ok a, n).
Definition throw {A} (message : string) : Gen A := fun _ n => (Throw message, n).
Definition bind {A B} (m : Gen A) (k : A -> Gen B) : Gen B :=
  fun rnd n =>
    match m rnd n with
    | (Ok a, n') => k a rnd n'
    | (Throw e, n') => (Throw e, n')
    end.
(** [try { body } catch (error) { handler(error.message) }]. *)
Definition try_catch {A} (body : Gen A) (handler : string -> Gen A) : Gen A :=
  fun rnd n =>
    match body rnd n with
    | (Ok a, n') => (Ok a, n')
    | (Throw e, n') => handler e rnd n'
    end.

Notation "x <- m ;; k" := (bind m (fun x => k))
  (at level 61, m at next level, right associativity).

(** Generate a random ID. *)
Definition generateId : Gen string := fun rnd n => (Ok (rnd n), S n).

(** [array.map(f)] for an effectful callback, left to right. *)
Fixpoint mapM {A B} (f : A -> Gen B) (l : list A) : Gen (list B) :=
  match l with
  | [] => ret []
  | a :: r => b <- f a ;; bs <- mapM f r ;; ret (b :: bs)
  end.

(** The line feed character and the one-character string holding it. *)
Definition LF : ascii := "010"%char.
Definition nl : string := String LF EmptyString.

(* ================================================================= *)
(** ** [services/geminiService.ts] *)

(** One item of the [lines] array of the model's JSON answer.  [time] is
    [None] when the item has no string under [time] (the property is
    missing or holds something else: [timeStr.replace] then throws a
    [TypeError]); [entry_text] is the string under [text], as the response
    schema asks for one; [confidence] is the value under [confidence],
    whatever it is, [VUndefined] when the property is missing. *)
Record AiEntry : Type := mkAiEntry {
  time : option string;
  entry_text : string;
  confidence : JS.Value
}.

(** An entry whose confidence is a number, or is missing. *)
Definition mkEntry (time : option string) (entry_text : string)
    (confidence : option Q) : AiEntry :=
  mkAiEntry time entry_text
            match confidence with
            | Some c => JS.VNumber c
            | None => JS.VUndefined
            end.

(** The ways a call of [ai.models.generateContent] and the reading of its
    answer can end, by the path the code takes. *)
Inductive AiOutcome : Type :=
| CallRejected (message : string)  (* the request fails: network, quota, ... *)
| EmptyText                        (* [response.text] is empty or undefined *)
| InvalidJson (message : string)   (* [JSON.parse] throws *)
| NoLinesArray (message : string)  (* [parsed.lines] is not an array *)
| Lines (entries : list AiEntry).

(** The callback of [parsed.lines.map]. *)
Definition mapEntry (line : AiEntry) : Gen LyricLine :=
  i <- generateId ;;
  t <- match time line with
       | Some timeStr => ret (parseLrcTime timeStr)
       | None => throw "timeStr.replace is not a function"
       end ;;
  r <- match JS.lessThan (confidence line) (7 # 10) with
       | Some b => ret b
       | None => throw "Cannot convert object to primitive value"
       end ;;
  ret {| id := i;
         timestamp := t;
         text := entry_text line;
         needsReview := Some r |}.

(** The [catch] branch: raw lines with 0 timestamp. *)
Definition fallbackLines (rawLyrics : string) : Gen (list LyricLine) :=
  mapM (fun line =>
          i <- generateId ;;
          ret {| id := i; timestamp := 0; text := JS.trim line;
                 needsReview := Some true |})
       (filter (fun l => negb (String.eqb (JS.trim l) ""))
               (JS.split LF rawLyrics)).

Definition analyzeLyricsWithAudio (outcome : AiOutcome) (rawLyrics : string)
  : Gen (list LyricLine) :=
  try_catch
    match outcome with
    | CallRejected e => throw e
    | EmptyText => throw "No response from AI"
    | InvalidJson e => throw e
    | NoLinesArray e => throw e
    | Lines entries =>
        (* Map to our internal structure *)
        mapM mapEntry entries
    end
    (fun _error =>
       (* console.error("Gemini Sync Error:", error) *)
       fallbackLines rawLyrics).

(* ================================================================= *)
(** ** [App.tsx] *)

Record File : Type := mkFile {
  file_name : string;
  file_type : string;
  file_size : N
}.

(** The component's state (presentational state left out) and, as [player],
    the [currentTime] of the audio element behind [playerRef] when there is
    one. *)
Record AppState : Type := mkApp {
  status : AppStatus;
  audioFile : option File;
  textFile : option File;
  lines : list LyricLine;
  meta : MetaData;
  currentTime : Q;
  player : option Q
}.

Definition setStatus (v : AppStatus) (st : AppState) : AppState :=
  mkApp v (audioFile st) (textFile st) (lines st) (meta st)
        (currentTime st) (player st).

Definition setLines (v : list LyricLine) (st : AppState) : AppState :=
  mkApp (status st) (audioFile st) (textFile st) v (meta st)
        (currentTime st) (player st).

(** What the asynchronous steps of one analysis attempt come to. *)
Record Env : Type := mkEnv {
  fileToBase64 : Result string;   (* encoding the audio file *)
  text_first : Result string;     (* [textFile.text()] in the [try] block *)
  text_again : Result string;     (* [textFile.text()] in the fallback *)
  ai : AiOutcome
}.

Definition lift {A} (r : Result A) : Gen A := fun _ n => (r, n).

(** Fallback manual mode: the lines built from the raw text. *)
Definition manualLines (text0 : string) : Gen (list LyricLine) :=
  mapM (fun l =>
          i <- generateId ;;
          ret {| id := i; timestamp := 0; text := JS.trim l;
                 needsReview := Some true |})
       (filter (fun l => negb (String.eqb (JS.trim l) ""))
               (JS.split LF text0)).

Definition tooLargeMessage : string :=
  ("ファイルサイズが大きすぎます (上限: 約25MB)。" ++ nl ++
   "Gemini APIの制限により、大きなファイルは解析できません。" ++ nl ++
   "MP3形式などに圧縮してから再度お試しください。")%string.

Definition failureMessage (msg : string) : string :=
  ("AI解析エラー: " ++ msg ++ nl ++ nl ++
   "手動編集モードに切り替えます。")%string.

(** [handleAutoProcess], its timers and awaited steps run to completion: the
    state reached when the attempt has settled, the [alert]s shown on the
    way, and the number of ids drawn. *)
Definition handleAutoProcess (env : Env) (st : AppState)
    (rnd : nat -> string) (n : nat) : AppState * list string * nat :=
  match audioFile st, textFile st with
  | Some audio, Some _ =>
      (* Check file size limit *)
      if (25 * 1024 * 1024 <? file_size audio)%N then
        (st, [tooLargeMessage], n)
      else
        let st1 := setStatus PROCESSING st in
        let attempt : Gen (list LyricLine) :=
          _audioB64 <- lift (fileToBase64 env) ;;
          textContent <- lift (text_first env) ;;
          analyzeLyricsWithAudio (ai env) textContent in
        match attempt rnd n with
        | (Ok generatedLines, n1) =>
            (setStatus EDITING (setLines generatedLines st1), [], n1)
        | (Throw message, n1) =>
            let msg := if String.eqb message "" then "Unknown error"
                       else message in
            let shown := [failureMessage msg] in
            (* Fallback manual mode *)
            match text_again env with
            | Ok text0 =>
                match manualLines text0 rnd n1 with
                | (Ok rawLines, n2) =>
                    (setStatus EDITING (setLines rawLines st1), shown, n2)
                | (Throw _, n2) => (setStatus IDLE st1, shown, n2)
                end
            | Throw _ => (setStatus IDLE st1, shown, n1)
            end
        end
  | _, _ => (st, [], n)
  end.

Definition handleUpdateLine (id0 : string) (updates : PartialLyricLine)
    (st : AppState) : AppState :=
  setLines
    (map (fun line => if String.eqb (id line) id0 then spread line updates
                      else line)
         (lines st))
    st.

(** [confirmed] is the answer the user gives to [confirm]. *)
Definition handleDeleteLine (confirmed : bool) (id0 : string) (st : AppState)
  : AppState :=
  if confirmed then
    setLines (filter (fun line => negb (String.eqb (id line) id0)) (lines st))
             st
  else st.

Definition handleInsertAfter (index : nat) (st : AppState) : Gen AppState :=
  match nth_error (lines st) index with
  | None => throw "Cannot read properties of undefined (reading 'timestamp')"
  | Some prevLine =>
      let newTime := timestamp prevLine + 2 in
      let newTime := if JS.ltb (timestamp prevLine) (currentTime st)
                     then currentTime st else newTime in
      i <- generateId ;;
      let newLine := {| id := i; timestamp := newTime; text := "";
                        needsReview := None |} in
      ret (setLines (JS.splice_insert (index + 1) newLine (lines st)) st)
  end.

Definition handleSync (id0 : string) (st : AppState) : AppState :=
  match player st with
  | None => st
  | Some time0 =>
      handleUpdateLine id0
        {| p_id := None; p_timestamp := Some time0; p_text := None;
           p_needsReview := Some false |}
        st
  end.

(** The click handler of the button below the rows: a new empty line at the
    end, at the current playback position. *)
Definition appendLine (st : AppState) : Gen AppState :=
  i <- generateId ;;
  ret (setLines (lines st ++ [ {| id := i; timestamp := currentTime st;
                                  text := ""; needsReview := None |} ]) st).

Definition generateLrcOutput (st : AppState) : string :=
  let metaHeader :=
    ("[ti:" ++ title (meta st) ++ "]" ++ nl ++
     "[ar:" ++ artist (meta st) ++ "]" ++ nl ++
     "[al:" ++ album (meta st) ++ "]" ++ nl ++
     "[by:" ++ by_ (meta st) ++ "]" ++ nl)%string in
  (* Sort lines by time before export *)
  let sortedLines :=
    JS.sort (fun a b => timestamp a - timestamp b) (lines st) in
  let body :=
    JS.join nl
      (map (fun line => (formatLrcTime (timestamp line) ++ text line)%string)
           sortedLines) in
  (metaHeader ++ body)%string.

(** The loop of [activeLineIndex]: [i] is the loop counter, [index] the
    last line that has started. *)
Fixpoint activeLineIndex_loop (currentTime0 : Q) (rest : list LyricLine)
    (i index : Z) : Z :=
  match rest with
  | [] => index
  | line :: rest' =>
      if JS.leb (timestamp line) currentTime0
      then activeLineIndex_loop currentTime0 rest' (i + 1)%Z i
      else index
  end.

Definition activeLineIndex (st : AppState) : Z :=
  activeLineIndex_loop (currentTime st) (lines st) 0%Z (-1)%Z.

(* ================================================================= *)
(** ** [components/EditorRow.tsx] *)

(** The nudge buttons of the row showing [line]. *)
Definition adjustTime (line : LyricLine) (delta : Q) (st : AppState)
  : AppState :=
  handleUpdateLine (id line)
    {| p_id := None;
       p_timestamp := Some (JS.Math_max 0 (timestamp line + delta));
       p_text := None; p_needsReview := None |}
    st.

(* ================================================================= *)
(** ** The time codec over IEEE 754 binary64 *)

Module Binary64.

(** The double nearest to an integer (ties to even). *)
Definition of_Z (z : Z) : float :=
  SF2Prim (binary_normalize prec emax z 0 false).

(** The integer part, rounded down, of a finite double [(-1)^s * m * 2^e]. *)
Definition floor_Z (s : bool) (m : positive) (e : Z) : Z :=
  let v := if s then Z.neg m else Z.pos m in
  if (0 <=? e)%Z then (v * 2 ^ e)%Z else (v / 2 ^ (- e))%Z.

(** [Math.floor]: exact; zeros, infinities and [NaN] are returned as they
    are. *)
Definition Math_floor (x : float) : float :=
  match Prim2SF x with
  | S754_finite s m e => of_Z (floor_Z s m e)
  | _ => x
  end.

(** [x % y]: the exact remainder of the truncated division, with the sign
    of the dividend; it is representable, so no rounding takes place. *)
Definition rem (x y : float) : float :=
  match Prim2SF x, Prim2SF y with
  | S754_nan, _ | _, S754_nan => nan
  | S754_infinity _, _ => nan
  | _, S754_zero _ => nan
  | _, S754_infinity _ => x
  | S754_zero _, _ => x
  | S754_finite sx mx ex, S754_finite _ my ey =>
      let e := Z.min ex ey in
      let r := ((Z.pos mx * 2 ^ (ex - e)) mod (Z.pos my * 2 ^ (ey - e)))%Z in
      SF2Prim (binary_normalize prec emax (if sx then (- r)%Z else r) e sx)
  end.

(** [n.toString()] on the values [Math.floor] returns.  (From 10^21 on
    ECMAScript prints an exponent; the model prints every digit.) *)
Definition toString (x : float) : string :=
  match Prim2SF x with
  | S754_nan => "NaN"
  | S754_infinity false => "Infinity"
  | S754_infinity true => "-Infinity"
  | S754_zero _ => "0"
  | S754_finite s m e => JS.toString (floor_Z s m e)
  end.

(** [parseInt(s, 10)] as a double. *)
Definition parseInt (s : string) : float :=
  let (neg, s1) := JS.take_sign (JS.trimStart s) in
  match JS.take_digits s1 with
  | (Nil, _) => nan
  | (d, _) => let v := of_Z (Z.of_N (N.of_uint d)) in
              if neg then PrimFloat.opp v else v
  end.

(** [parseFloat]: the double nearest to the decimal literal read. *)
Definition parseFloat (s : string) : float :=
  match JS.lex_float s with
  | JS.LNaN => nan
  | JS.LInfinity neg => if neg then neg_infinity else infinity
  | JS.LDecimal neg mant exp10 =>
      match mant with
      | N0 => if neg then neg_zero else zero
      | Npos m =>
          if (0 <=? exp10)%Z then
            SF2Prim (binary_normalize prec emax
                       ((if neg then Z.neg m else Z.pos m) * 10 ^ exp10) 0 neg)
          else
            SF2Prim (SFdiv prec emax
                       (S754_finite neg m 0)
                       (S754_finite false (Z.to_pos (10 ^ (- exp10))) 0))
      end
  end.

Local Open Scope float_scope.

(** Format seconds to [[mm:ss.xx]]. *)
Definition formatLrcTime (seconds : float) : string :=
  let m := Math_floor (seconds / 60) in
  let s := Math_floor (rem seconds 60) in
  let ms := Math_floor (rem seconds 1 * 100) in
  let mStr := JS.padStart 2 "0" (toString m) in
  let sStr := JS.padStart 2 "0" (toString s) in
  let msStr := JS.padStart 2 "0" (toString ms) in
  ("[" ++ mStr ++ ":" ++ sStr ++ "." ++ msStr ++ "]")%string.

(** Parse [[mm:ss.xx]] or [mm:ss.xx] to seconds. *)
Definition parseLrcTime (timeStr : string) : float :=
  let cleanStr := JS.replace_brackets timeStr in
  match JS.split ":" cleanStr with
  | [p0; p1] =>
      let minutes := parseInt p0 in
      let seconds := parseFloat p1 in
      if is_nan minutes || is_nan seconds then 0
      else minutes * 60 + seconds
  | _ => 0
  end.

End Binary64.

(* ================================================================= *)
(** ** The rest of [utils.ts] *)

Module Utils.

(** How the [FileReader] ends: [onload] with its [result] (a string, or
    [None] for anything else), or [onerror]. *)
Inductive ReaderOutcome : Type :=
| Loaded (result : option string)
| ReadError (message : string).

(** Convert File to Base64: the promise resolves with
    [reader.result.split(',')[1]], which is [undefined] ([None]) when the
    result holds no comma, or rejects. *)
Definition fileToBase64 (outcome : ReaderOutcome) : Result (option string) :=
  match outcome with
  | Loaded (Some result) =>
      (* Remove the Data-URI prefix *)
      Ok (nth_error (JS.split ","%char result) 1)
  | Loaded None => Throw "Failed to convert file to base64"
  | ReadError e => Throw e
  end.

(** What reading a property of the object literal [mimeMap] yields: one of
    its own strings, or a member inherited from [Object.prototype] (a
    function or an object, never a string). *)
Inductive MimeValue : Type :=
| MimeString (s : string)
| Inherited (key : string).

Definition inheritedKeys : list string :=
  ["constructor"; "__proto__"; "toString"; "toLocaleString"; "valueOf";
   "hasOwnProperty"; "isPrototypeOf"; "propertyIsEnumerable";
   "__defineGetter__"; "__defineSetter__"; "__lookupGetter__";
   "__lookupSetter__"]%string.

(** [mimeMap[key]]; [None] is [undefined]. *)
Definition mimeMap (key : string) : option MimeValue :=
  if String.eqb key "mp3" then Some (MimeString "audio/mpeg")
  else if String.eqb key "wav" then Some (MimeString "audio/wav")
  else if String.eqb key "m4a" then Some (MimeString "audio/mp4")
  else if String.eqb key "ogg" then Some (MimeString "audio/ogg")
  else if String.eqb key "flac" then Some (MimeString "audio/flac")
  else if String.eqb key "aac" then Some (MimeString "audio/aac")
  else if String.eqb key "webm" then Some (MimeString "audio/webm")
  else if existsb (String.eqb key) inheritedKeys then Some (Inherited key)
  else None.

(** Fallback to determine MIME type from filename extension.  (The keys of
    [mimeMap] are ASCII and no character outside A to Z lower-cases to one
    of their letters, so lower-casing the letters A to Z only does not
    change the outcome.) *)
Definition getMimeTypeFromFilename (filename : string) : MimeValue :=
  let parts := JS.split "."%char filename in
  if (length parts =? 1)%nat then MimeString "audio/mp3" (* Default fallback *)
  else
    let ext := JS.toLowerCase (last parts EmptyString) in
    match mimeMap ext with
    | Some v => v
    | None => MimeString "audio/mp3"
    end.

End Utils.

(* ================================================================= *)
(** ** The rest of [App.tsx] *)





(** [setCurrentTime], the [onTimeUpdate] callback handed to the player. *)
Definition setCurrentTime (v : Q) (st : AppState) : AppState :=
  mkApp (status st) (audioFile st) (textFile st) (lines st) (meta st)
        v (player st).

(* ================================================================= *)
(** * Vocabulary of the statements *)

(** A state in the editor with the given lines and playback position. *)
Definition editing (ls : list LyricLine) (t : Q) : AppState :=
  mkApp EDITING None None ls (mkMeta "" "" "" "LyricalSync AI") t (Some t).

(** A reviewed line at a given time. *)
Definition lineAt (i : string) (t : Q) : LyricLine := mkLine i t "" None.

(** A state holding both files, the audio one small enough to be sent. *)
Definition ready : AppState :=
  mkApp IDLE (Some (mkFile "song.mp3" "audio/mpeg" 4000000))
        (Some (mkFile "song.txt" "text/plain" 40))
        [] (mkMeta "song" "" "" "LyricalSync AI") 0 None.

(** The lines not discarded by the fallback, trimmed. *)
Definition keptLines (text0 : string) : list string :=
  map JS.trim
      (filter (fun l => negb (String.eqb (JS.trim l) "")) (JS.split LF text0)).

(** All timestamps of the state are non-negative. *)
Definition timestamps_nonneg (st : AppState) : Prop :=
  Forall (fun line => 0 <= timestamp line) (lines st).

(** Outcomes on which the [try] block of [analyzeLyricsWithAudio] throws:
    every outcome but an array of entries that all carry a time string.
    (Such an array makes it throw as well when a confidence has no
    primitive value; [confidences_convert] excludes that.) *)
Definition ai_fails (outcome : AiOutcome) : bool :=
  match outcome with
  | Lines entries =>
      existsb (fun e => match time e with None => true | Some _ => false end)
              entries
  | _ => true
  end.

(** The digit strings [toString] prints. *)
Abbreviation ustr := NilEmpty.string_of_uint.

(** A string that does not go on with a digit. *)
Definition not_digit_first (s : string) : Prop :=
  match s with
  | EmptyString => True
  | String c _ => JS.digit c = None
  end.

(** The seconds and hundredths fields of a formatted time: [pad2] prints
    one, [tail_ok] checks what the parser makes of a pair of them. *)
Definition pad2 (z : Z) : string := JS.padStart 2 "0" (JS.toString z).

Definition tail_ok (s c : nat) : bool :=
  let sscc := (pad2 (Z.of_nat s) ++ "." ++ pad2 (Z.of_nat c))%string in
  String.eqb
    (JS.replace_brackets
       (":" ++ pad2 (Z.of_nat s) ++ "." ++ pad2 (Z.of_nat c) ++ "]"))
    (":" ++ sscc) &&
  match JS.split ":" sscc with
  | [p] => String.eqb p sscc
  | _ => false
  end &&
  match JS.parseFloat sscc with
  | Some q => Qeq_bool q (inject_Z (Z.of_nat s) + inject_Z (Z.of_nat c) / 100)
  | None => false
  end.

(** The number of occurrences of a character in a string. *)
Fixpoint count_char (c : ascii) (s : string) : nat :=
  match s with
  | EmptyString => O
  | String x r => (if Ascii.eqb x c then 1 else 0) + count_char c r
  end.

(** A string of white-space characters only. *)
Inductive blank : string -> Prop :=
| blank_nil : blank ""
| blank_cons (w s : string) :
    In w JS.whiteSpaceChars -> blank s -> blank (w ++ s).

(** A string that begins, or ends, with a white-space character. *)
Definition starts_with_ws (t : string) : Prop :=
  exists w r : string, In w JS.whiteSpaceChars /\ t = (w ++ r)%string.

Definition ends_with_ws (t : string) : Prop :=
  exists w r : string, In w JS.whiteSpaceChars /\ t = (r ++ w)%string.

(** [t] is [l] without the white space at its two ends. *)
Definition trimmed_of (l t : string) : Prop :=
  exists a b : string,
    blank a /\ blank b /\ l = (a ++ t ++ b)%string /\
    ~ starts_with_ws t /\ ~ ends_with_ws t.

(** [kept] is [ls] without its blank members, in the same order. *)
Inductive without_blank : list string -> list string -> Prop :=
| without_blank_nil : without_blank [] []
| without_blank_skip (l : string) (ls kept : list string) :
    blank l -> without_blank ls kept -> without_blank (l :: ls) kept
| without_blank_keep (l : string) (ls kept : list string) :
    ~ blank l -> without_blank ls kept -> without_blank (l :: ls) (l :: kept).

(** A byte that continues a character of several bytes. *)
Definition continuation (c : ascii) : bool :=
  ((128 <=? N_of_ascii c) && (N_of_ascii c <? 192))%N.

(** Whether a string begins with a white-space character. *)
Definition startsb (s : string) : bool :=
  match s with
  | EmptyString => false
  | String a r1 =>
      JS.isWhiteSpace (String a EmptyString) ||
      match r1 with
      | EmptyString => false
      | String b r2 =>
          JS.isWhiteSpace (String a (String b EmptyString)) ||
          match r2 with
          | EmptyString => false
          | String c _ =>
              JS.isWhiteSpace (String a (String b (String c EmptyString)))
          end
      end
  end.

(** The ids of the lines, in display order. *)
Definition ids (st : AppState) : list string := map id (lines st).

(** Two successive updates as one: a field of the later one wins. *)
Definition merge_updates (u1 u2 : PartialLyricLine) : PartialLyricLine :=
  {| p_id := match p_id u2 with Some v => Some v | None => p_id u1 end;
     p_timestamp := match p_timestamp u2 with
                    | Some v => Some v | None => p_timestamp u1 end;
     p_text := match p_text u2 with Some v => Some v | None => p_text u1 end;
     p_needsReview := match p_needsReview u2 with
                      | Some v => Some v | None => p_needsReview u1 end |}.



(** The first attempt of [handleAutoProcess] fails before the AI is called:
    encoding the audio or reading the lyrics text throws. *)
Definition attempt_fails (env : Env) : Prop :=
  (exists e, fileToBase64 env = Throw e) \/
  (exists e, text_first env = Throw e).

(** The strings [getMimeTypeFromFilename] can return. *)
Definition mimeTypes : list string :=
  ["audio/mpeg"; "audio/wav"; "audio/mp4"; "audio/ogg"; "audio/flac";
   "audio/aac"; "audio/webm"; "audio/mp3"].

(* ================================================================= *)
(** * Properties *)

(** ** Comparisons of the exact model *)

Lemma ltb_iff (x y : Q) : JS.ltb x y = true <-> x < y.
Proof.
  unfold JS.ltb. rewrite negb_true_iff, <- not_true_iff_false, Qle_bool_iff.
  split; [apply Qnot_le_lt | apply Qlt_not_le].
Qed.

Lemma ltb_false_iff (x y : Q) : JS.ltb x y = false <-> y <= x.
Proof.
  unfold JS.ltb. rewrite negb_false_iff. apply Qle_bool_iff.
Qed.

Lemma leb_iff (x y : Q) : JS.leb x y = true <-> x <= y.
Proof. apply Qle_bool_iff. Qed.

Lemma leb_false_iff (x y : Q) : JS.leb x y = false <-> y < x.
Proof.
  unfold JS.leb. rewrite <- not_true_iff_false, Qle_bool_iff.
  split; [apply Qnot_le_lt | apply Qlt_not_le].
Qed.

(** ** State updates *)

Lemma setLines_same (st : AppState) : setLines (lines st) st = st.
Proof. now destruct st. Qed.

Lemma lines_setLines (v : list LyricLine) (st : AppState) :
  lines (setLines v st) = v.
Proof. reflexivity. Qed.

(** ** The active-line resolver *)

Section ActiveLine.
Variable t : Q.

Lemma activeLineIndex_loop_spec (ls : list LyricLine) :
  forall i : Z,
    let r := activeLineIndex_loop t ls i (i - 1)%Z in
    (i - 1 <= r < i + Z.of_nat (length ls))%Z /\
    (forall j l, (i + Z.of_nat j <= r)%Z -> nth_error ls j = Some l ->
                 timestamp l <= t) /\
    (forall l, nth_error ls (Z.to_nat (r + 1 - i)) = Some l ->
               t < timestamp l).
Proof.
  induction ls as [|a ls IH]; intros i r; subst r; simpl.
  - split; [lia | split].
    + intros j l _ H. now destruct j.
    + intros l H. replace (i - 1 + 1 - i)%Z with 0%Z in H by lia. discriminate.
  - destruct (JS.leb (timestamp a) t) eqn:E.
    + specialize (IH (i + 1)%Z).
      replace (i + 1 - 1)%Z with i in IH by lia.
      cbv zeta in IH. destruct IH as (Hr & Hle & Hgt).
      set (r := activeLineIndex_loop t ls (i + 1) i) in *.
      split; [lia | split].
      * intros [|j] l Hj Hn; simpl in Hn.
        -- injection Hn as <-. now apply leb_iff.
        -- apply (Hle j l); [lia | exact Hn].
      * intros l Hn.
        replace (Z.to_nat (r + 1 - i)) with (S (Z.to_nat (r + 1 - (i + 1))))
          in Hn by lia.
        simpl in Hn. now apply Hgt.
    + split; [lia | split].
      * intros j l Hj _. lia.
      * intros l Hn. replace (i - 1 + 1 - i)%Z with 0%Z in Hn by lia.
        simpl in Hn. injection Hn as <-. now apply leb_false_iff.
Qed.

End ActiveLine.

(** C2. For every list of lines in display order and every playback
    position [t], [activeLineIndex] is the index [r] of the last line of the
    leading run of lines whose timestamp is [<= t]: every line up to [r] has
    started, and the scan stopped because line [r + 1], when there is one,
    has a timestamp that exceeds [t].  The result is [-1] exactly when the
    list is empty or [t] is before the first line's timestamp.  For the
    timestamps [0, 10, 20]: [-1 -> -1], [0 -> 0], [9.99 -> 0], [10 -> 1],
    [25 -> 2]. *)
Theorem activeLineIndex_correct :
  (forall st : AppState,
     let r := activeLineIndex st in
     let t := currentTime st in
     (-1 <= r < Z.of_nat (length (lines st)))%Z /\
     (forall i l, (Z.of_nat i <= r)%Z -> nth_error (lines st) i = Some l ->
                  timestamp l <= t) /\
     (forall l, nth_error (lines st) (Z.to_nat (r + 1)) = Some l ->
                t < timestamp l) /\
     (r = (-1)%Z <->
      lines st = [] \/ exists l, hd_error (lines st) = Some l /\ t < timestamp l)) /\
  (let ls := [lineAt "a" 0; lineAt "b" 10; lineAt "c" 20] in
   activeLineIndex (editing ls (-1)) = (-1)%Z /\
   activeLineIndex (editing ls 0) = 0%Z /\
   activeLineIndex (editing ls (999 # 100)) = 0%Z /\
   activeLineIndex (editing ls 10) = 1%Z /\
   activeLineIndex (editing ls 25) = 2%Z).
Proof.
  split; [| now vm_compute].
  intros st r t.
  pose proof (activeLineIndex_loop_spec t (lines st) 0%Z) as H.
  cbv zeta in H. change (0 - 1)%Z with (-1)%Z in H.
  change (activeLineIndex_loop t (lines st) 0 (-1)) with r in H.
  clearbody r t.
  destruct H as (Hr & Hle & Hgt).
  split; [lia | split; [| split; [| split]]].
  - intros i l Hi. apply Hle. lia.
  - intros l Hn. apply Hgt. now replace (r + 1 - 0)%Z with (r + 1)%Z by lia.
  - intros Er. rewrite Er in Hgt. destruct (lines st) as [|a ls] eqn:E; [now left | right].
    exists a. split; [reflexivity |]. apply Hgt. reflexivity.
  - intros [E | (l & Hl & Hlt)].
    + rewrite E in Hr. simpl in Hr. lia.
    + destruct (lines st) as [|a ls] eqn:E; [discriminate |].
      simpl in Hl. injection Hl as ->.
      destruct (Z.eq_dec r (-1)) as [|Hne]; [assumption | exfalso].
      assert (H0 : timestamp l <= t) by (apply (Hle O l); [lia | reflexivity]).
      apply (Qlt_not_le _ _ Hlt H0).
Qed.

(** ** Line store operations *)

Lemma nth_error_splice_insert {A} (a : list A) (x : A) (k : nat) :
  (k <= length a)%nat ->
  nth_error (JS.splice_insert k x a) k = Some x /\
  (forall j, (j < k)%nat ->
             nth_error (JS.splice_insert k x a) j = nth_error a j) /\
  (forall j, (k <= j)%nat ->
             nth_error (JS.splice_insert k x a) (S j) = nth_error a j).
Proof.
  intros Hk. unfold JS.splice_insert.
  assert (Hlen : length (firstn k a) = k) by (apply firstn_length_le; lia).
  split; [| split].
  - rewrite nth_error_app2 by lia. now rewrite Hlen, Nat.sub_diag.
  - intros j Hj. rewrite nth_error_app1 by lia.
    rewrite nth_error_firstn.
    now destruct (Nat.ltb_spec j k); [| lia].
  - intros j Hj. rewrite nth_error_app2 by lia. rewrite Hlen.
    replace (S j - k)%nat with (S (j - k)) by lia. simpl.
    rewrite nth_error_skipn. f_equal. lia.
Qed.

(** C4. For every line list, every valid index and every playback position,
    [handleInsertAfter index] returns (it does not throw) the list with one
    new line placed immediately after position [index], every other line
    kept in its order; the new line has empty text; its timestamp is the
    playback position when that is strictly greater than the timestamp of
    the line at [index], and that timestamp plus 2 otherwise; so it is never
    less than the timestamp of the line at [index].  With the previous line
    at 5: position 3 gives 7, position 8 gives 8. *)
Theorem handleInsertAfter_correct :
  (forall (rnd : nat -> string) (n index : nat) (st : AppState)
          (prevLine : LyricLine),
     nth_error (lines st) index = Some prevLine ->
     exists newLine : LyricLine,
       handleInsertAfter index st rnd n =
         (Ok (setLines (firstn (S index) (lines st) ++
                        newLine :: skipn (S index) (lines st)) st), S n) /\
       nth_error (firstn (S index) (lines st) ++
                  newLine :: skipn (S index) (lines st)) index
         = Some prevLine /\
       nth_error (firstn (S index) (lines st) ++
                  newLine :: skipn (S index) (lines st)) (S index)
         = Some newLine /\
       text newLine = "" /\
       (timestamp prevLine < currentTime st ->
        timestamp newLine = currentTime st) /\
       (~ timestamp prevLine < currentTime st ->
        timestamp newLine = timestamp prevLine + 2) /\
       timestamp prevLine <= timestamp newLine) /\
  (let rnd := fun _ : nat => "new" in
   fst (handleInsertAfter O (editing [lineAt "a" 5] 3) rnd O) =
     Ok (editing [lineAt "a" 5; lineAt "new" 7] 3) /\
   fst (handleInsertAfter O (editing [lineAt "a" 5] 8) rnd O) =
     Ok (editing [lineAt "a" 5; lineAt "new" 8] 8)).
Proof.
  split; [| now vm_compute].
  intros rnd n index st prevLine Hprev.
  assert (Hidx : (S index <= length (lines st))%nat).
  { apply Nat.le_succ_l. apply nth_error_Some. now rewrite Hprev. }
  destruct (nth_error_splice_insert (lines st)
              {| id := rnd n;
                 timestamp := if JS.ltb (timestamp prevLine) (currentTime st)
                              then currentTime st else timestamp prevLine + 2;
                 text := ""; needsReview := None |} (S index) Hidx)
    as (Hnew & Hbefore & _).
  unfold JS.splice_insert in Hnew, Hbefore.
  eexists. split; [| split; [| split; [| split; [| split; [| split]]]]].
  - unfold handleInsertAfter. rewrite Hprev.
    unfold bind, generateId, ret, JS.splice_insert.
    rewrite Nat.add_1_r. reflexivity.
  - rewrite Hbefore by lia. exact Hprev.
  - exact Hnew.
  - reflexivity.
  - intros H. apply ltb_iff in H. simpl. now rewrite H.
  - intros H. simpl. destruct (JS.ltb _ _) eqn:E; [| reflexivity].
    apply ltb_iff in E. contradiction.
  - simpl. destruct (JS.ltb _ _) eqn:E.
    + apply ltb_iff in E. now apply Qlt_le_weak.
    + lra.
Qed.

(** Inserting after the second of three lines, at playback position 3. *)
Lemma handleInsertAfter_correct_witness :
  exists newLine : LyricLine,
    handleInsertAfter 1%nat
      (editing [lineAt "a" 1; lineAt "b" 5; lineAt "c" 9] 3)
                      (fun _ => "new") 4%nat =
      (Ok (editing [lineAt "a" 1; lineAt "b" 5; newLine; lineAt "c" 9] 3),
       5%nat) /\
    timestamp newLine == 7.
Proof.
  destruct (proj1 handleInsertAfter_correct (fun _ => "new") 4%nat 1%nat
              (editing [lineAt "a" 1; lineAt "b" 5; lineAt "c" 9] 3)
              (lineAt "b" 5) eq_refl)
    as (newLine & Hrun & _ & _ & _ & _ & Hts & _).
  exists newLine. split.
  - exact Hrun.
  - rewrite Hts; [reflexivity | vm_compute; discriminate].
Defined.

Lemma filter_keeps_all {A} (f : A -> bool) (l : list A) :
  (forall x, In x l -> f x = true) -> filter f l = l.
Proof.
  induction l as [|a l IH]; intros H; simpl; [reflexivity |].
  rewrite (H a) by now left. f_equal. apply IH. intros x Hx. apply H. now right.
Qed.

Lemma map_keeps_all {A} (f : A -> A) (l : list A) :
  (forall x, In x l -> f x = x) -> map f l = l.
Proof.
  induction l as [|a l IH]; intros H; simpl; [reflexivity |].
  rewrite (H a) by now left. f_equal. apply IH. intros x Hx. apply H. now right.
Qed.

(** C7. For every state and every id carried by none of its lines,
    [handleDeleteLine] (whatever the user answers to the confirmation) and
    [handleUpdateLine] (whatever the fields) return the state they were
    given: same lines in the same order, same metadata, and every other
    field the same. *)
Theorem unknown_id_is_noop :
  forall (st : AppState) (id0 : string) (updates : PartialLyricLine)
         (confirmed : bool),
    (forall line, In line (lines st) -> id line <> id0) ->
    handleDeleteLine confirmed id0 st = st /\
    handleUpdateLine id0 updates st = st.
Proof.
  intros st id0 updates confirmed Hfresh.
  assert (Hneq : forall line, In line (lines st) ->
                              String.eqb (id line) id0 = false).
  { intros line Hin. apply String.eqb_neq. now apply Hfresh. }
  unfold handleDeleteLine, handleUpdateLine.
  rewrite filter_keeps_all, map_keeps_all, setLines_same.
  - now destruct confirmed.
  - intros line Hin. now rewrite (Hneq line Hin).
  - intros line Hin. now rewrite (Hneq line Hin).
Qed.

(** An id no line carries, on a state of two lines. *)
Lemma unknown_id_is_noop_witness :
  let st := editing [lineAt "a" 1; lineAt "b" 5] 3 in
  handleDeleteLine true "zz" st = st /\
  handleUpdateLine "zz" (mkPartial None (Some 9) (Some "x") (Some true)) st = st.
Proof.
  apply unknown_id_is_noop.
  intros line [<- | [<- | []]]; simpl; discriminate.
Defined.

(** C9. For every state whose audio element reports the playback position
    [position] and every id, [handleSync] leaves the number and order of
    the lines, the metadata and every other field of the state as they
    were; a line carrying that id keeps its id and text, gets [position] as
    timestamp and [needsReview = false] whatever it was before; every other
    line is unchanged. *)
Theorem handleSync_correct :
  forall (st : AppState) (id0 : string) (position : Q),
    player st = Some position ->
    let st' := handleSync id0 st in
    st' = setLines (lines st') st /\
    length (lines st') = length (lines st) /\
    forall (i : nat) (line : LyricLine),
      nth_error (lines st) i = Some line ->
      nth_error (lines st') i =
        Some (if String.eqb (id line) id0
              then {| id := id line; timestamp := position;
                      text := text line; needsReview := Some false |}
              else line).
Proof.
  intros st id0 position Hp st'. subst st'.
  unfold handleSync. rewrite Hp. unfold handleUpdateLine.
  rewrite lines_setLines. split; [reflexivity | split].
  - apply length_map.
  - intros i line Hi. rewrite nth_error_map, Hi. simpl.
    now destruct (String.eqb (id line) id0).
Qed.

(** Syncing the second of three lines at playback position 3. *)
Lemma handleSync_correct_witness :
  nth_error
    (lines (handleSync "b"
              (editing [mkLine "a" 1 "one" (Some true);
                        mkLine "b" 5 "two" (Some true);
                        mkLine "c" 9 "three" None] 3))) 1%nat =
    Some (mkLine "b" 3 "two" (Some false)).
Proof.
  exact (proj2 (proj2 (handleSync_correct
                         (editing [mkLine "a" 1 "one" (Some true);
                                   mkLine "b" 5 "two" (Some true);
                                   mkLine "c" 9 "three" None] 3)
                         "b" 3 eq_refl))
               1%nat (mkLine "b" 5 "two" (Some true)) eq_refl).
Defined.

(** ** Strings *)

Lemma append_assoc (a b c : string) : ((a ++ b) ++ c = a ++ (b ++ c))%string.
Proof. induction a as [|x a IH]; simpl; [reflexivity | now rewrite IH]. Qed.

Lemma append_nil_r (a : string) : (a ++ "" = a)%string.
Proof. induction a as [|x a IH]; simpl; [reflexivity | now rewrite IH]. Qed.

(** ** The serializer *)

Section SortByKey.
Context {A : Type}.
Variable key : A -> Q.

Let compare (a b : A) : Q := key a - key b.
Let ascending (a b : A) : Prop := key a <= key b.

Lemma compare_after (x y : A) : JS.ltb 0 (compare x y) = true <-> key y < key x.
Proof. unfold compare. rewrite ltb_iff. split; intros H; lra. Qed.

Lemma insert_perm (x : A) (l : list A) :
  Permutation (JS.insert compare x l) (x :: l).
Proof.
  induction l as [|y l IH]; simpl; [reflexivity |].
  destruct (JS.ltb 0 (compare x y)); [| reflexivity].
  rewrite IH. apply perm_swap.
Qed.

Lemma sort_perm (l : list A) : Permutation (JS.sort compare l) l.
Proof.
  induction l as [|x l IH]; simpl; [reflexivity |].
  rewrite insert_perm. now constructor.
Qed.

Lemma insert_sorted (x : A) (l : list A) :
  StronglySorted ascending l -> StronglySorted ascending (JS.insert compare x l).
Proof.
  induction l as [|y l IH]; intros Hs; simpl.
  - repeat constructor.
  - inversion Hs as [|? ? Hl Hy]; subst.
    destruct (JS.ltb 0 (compare x y)) eqn:E.
    + apply compare_after in E. constructor; [now apply IH |].
      apply Forall_forall. intros z Hz.
      apply (Permutation_in _ (insert_perm x l)) in Hz.
      destruct Hz as [<- | Hz].
      * now apply Qlt_le_weak.
      * rewrite Forall_forall in Hy. now apply Hy.
    + assert (Hxy : key x <= key y).
      { unfold compare in E. apply ltb_false_iff in E. lra. }
      constructor; [exact Hs |].
      constructor; [exact Hxy |].
      apply Forall_forall. intros z Hz. rewrite Forall_forall in Hy.
      unfold ascending. apply Qle_trans with (key y); [exact Hxy |].
      now apply Hy.
Qed.

Lemma sort_sorted (l : list A) : StronglySorted ascending (JS.sort compare l).
Proof.
  induction l as [|x l IH]; simpl; [constructor | now apply insert_sorted].
Qed.

(** Lines with equal keys keep their relative order. *)
Lemma insert_stable (t : Q) (x : A) (l : list A) :
  filter (fun a => Qeq_bool (key a) t) (JS.insert compare x l) =
  filter (fun a => Qeq_bool (key a) t) (x :: l).
Proof.
  induction l as [|y l IH]; [reflexivity |].
  simpl JS.insert. destruct (JS.ltb 0 (compare x y)) eqn:E; [| reflexivity].
  apply compare_after in E. simpl in *. rewrite IH.
  destruct (Qeq_bool (key x) t) eqn:Ex, (Qeq_bool (key y) t) eqn:Ey;
    try reflexivity.
  apply Qeq_bool_iff in Ex, Ey. rewrite Ex, Ey in E.
  now apply Qlt_irrefl in E.
Qed.

Lemma sort_stable (t : Q) (l : list A) :
  filter (fun a => Qeq_bool (key a) t) (JS.sort compare l) =
  filter (fun a => Qeq_bool (key a) t) l.
Proof.
  induction l as [|x l IH]; [reflexivity |].
  simpl JS.sort. rewrite insert_stable. simpl. now rewrite IH.
Qed.

End SortByKey.

(** C3. For every state, the export is the four header lines [[ti:title]],
    [[ar:artist]], [[al:album]], [[by:attribution]] in that order, each
    followed by a line feed, followed by the body: the lines of the state
    (all of them, nothing else) in ascending order of timestamp, lines with
    equal timestamps in the order they had, each written as
    [formatLrcTime timestamp] immediately followed by its text, joined by
    line feeds.  The store order [(b, 10), (a, 2)] is exported with the
    [a] line first. *)
Theorem generateLrcOutput_correct :
  (forall st : AppState,
     exists sorted : list LyricLine,
       generateLrcOutput st =
         ("[ti:" ++ title (meta st) ++ "]" ++ nl ++
          "[ar:" ++ artist (meta st) ++ "]" ++ nl ++
          "[al:" ++ album (meta st) ++ "]" ++ nl ++
          "[by:" ++ by_ (meta st) ++ "]" ++ nl ++
          String.concat nl
            (map (fun line => formatLrcTime (timestamp line) ++ text line)
                 sorted))%string /\
       Permutation sorted (lines st) /\
       StronglySorted (fun a b => timestamp a <= timestamp b) sorted /\
       (forall t : Q,
          filter (fun line => Qeq_bool (timestamp line) t) sorted =
          filter (fun line => Qeq_bool (timestamp line) t) (lines st))) /\
  generateLrcOutput
    (editing [mkLine "1" 10 "b" None; mkLine "2" 2 "a" None] 0) =
    ("[ti:]" ++ nl ++ "[ar:]" ++ nl ++ "[al:]" ++ nl ++
     "[by:LyricalSync AI]" ++ nl ++
     "[00:02.00]a" ++ nl ++ "[00:10.00]b")%string.
Proof.
  split; [| now vm_compute].
  intros st.
  exists (JS.sort (fun a b => timestamp a - timestamp b) (lines st)).
  split; [| split; [| split]].
  - unfold generateLrcOutput, JS.join.
    now rewrite !append_assoc.
  - apply sort_perm.
  - apply sort_sorted.
  - intros t. apply sort_stable.
Qed.

(** ** White space *)

Lemma isWhiteSpace_In (w : string) :
  JS.isWhiteSpace w = true <-> In w JS.whiteSpaceChars.
Proof.
  unfold JS.isWhiteSpace. rewrite existsb_exists. split.
  - intros (x & Hin & E). apply String.eqb_eq in E. now subst.
  - intros H. exists w. split; [exact H | apply String.eqb_refl].
Qed.

Ltac each_ws H :=
  repeat (destruct H as [H | H]; [subst |]); [.. | destruct H].

Lemma trimStart_ws (w r : string) :
  In w JS.whiteSpaceChars -> JS.trimStart (w ++ r) = JS.trimStart r.
Proof.
  intros H. unfold JS.whiteSpaceChars in H. each_ws H; reflexivity.
Qed.

Lemma blankb_ws (w r : string) :
  In w JS.whiteSpaceChars -> JS.blankb (w ++ r) = JS.blankb r.
Proof.
  intros H. unfold JS.whiteSpaceChars in H. each_ws H; reflexivity.
Qed.

Lemma length_append (a b : string) :
  String.length (a ++ b) = (String.length a + String.length b)%nat.
Proof. induction a as [|x a IH]; simpl; [reflexivity | now rewrite IH]. Qed.

Lemma ws_nonempty (w : string) :
  In w JS.whiteSpaceChars -> (1 <= String.length w)%nat.
Proof.
  intros H. unfold JS.whiteSpaceChars in H. each_ws H; simpl; lia.
Qed.

Lemma startsb_iff (s : string) : startsb s = true <-> starts_with_ws s.
Proof.
  split.
  - destruct s as [|a r1]; [discriminate |]. simpl.
    destruct (JS.isWhiteSpace (String a "")) eqn:E1.
    { intros _. exists (String a ""), r1. split; [now apply isWhiteSpace_In |].
      reflexivity. }
    destruct r1 as [|b r2]; [discriminate |]. simpl.
    destruct (JS.isWhiteSpace (String a (String b ""))) eqn:E2.
    { intros _. exists (String a (String b "")), r2.
      split; [now apply isWhiteSpace_In | reflexivity]. }
    destruct r2 as [|c r3]; [discriminate |]. simpl.
    intros E3. exists (String a (String b (String c ""))), r3.
    split; [now apply isWhiteSpace_In | reflexivity].
  - intros (w & r & H & ->). unfold JS.whiteSpaceChars in H.
    each_ws H; reflexivity.
Qed.

Lemma trimStart_fixed (s : string) : startsb s = false -> JS.trimStart s = s.
Proof.
  destruct s as [|a r1]; [reflexivity |]. simpl.
  destruct (JS.isWhiteSpace (String a "")); [discriminate |].
  destruct r1 as [|b r2]; [reflexivity |]. simpl.
  destruct (JS.isWhiteSpace (String a (String b ""))); [discriminate |].
  destruct r2 as [|c r3]; [reflexivity |]. simpl.
  now intros ->.
Qed.

Lemma blankb_not_started (s : string) :
  s <> "" -> startsb s = false -> JS.blankb s = false.
Proof.
  destruct s as [|a r1]; [contradiction |]. intros _. simpl.
  destruct (JS.isWhiteSpace (String a "")); [discriminate |].
  destruct r1 as [|b r2]; [reflexivity |]. simpl.
  destruct (JS.isWhiteSpace (String a (String b ""))); [discriminate |].
  destruct r2 as [|c r3]; [reflexivity |]. simpl.
  now intros ->.
Qed.

Lemma blank_app (a b : string) : blank a -> blank b -> blank (a ++ b).
Proof.
  intros Ha Hb. induction Ha as [|w s Hw Hs IH]; [exact Hb |].
  rewrite append_assoc. now constructor.
Qed.

Lemma trimStart_blank (a s : string) :
  blank a -> JS.trimStart (a ++ s) = JS.trimStart s.
Proof.
  intros Ha. induction Ha as [|w a Hw Ha IH]; [reflexivity |].
  rewrite append_assoc, trimStart_ws by exact Hw. exact IH.
Qed.

Lemma trimStart_spec (s : string) :
  exists a : string,
    blank a /\ s = a ++ JS.trimStart s /\ ~ starts_with_ws (JS.trimStart s).
Proof.
  remember (String.length s) as k eqn:Hk.
  revert s Hk. induction k as [k IH] using lt_wf_ind. intros s Hk.
  destruct (startsb s) eqn:E.
  - apply startsb_iff in E. destruct E as (w & r & Hw & ->).
    pose proof (ws_nonempty w Hw) as Hlen.
    destruct (IH (String.length r)) with (s := r) as (a & Ha & Hs & Hn);
      [rewrite Hk, length_append; lia | reflexivity |].
    exists (w ++ a). rewrite trimStart_ws by exact Hw.
    split; [now constructor |]. split; [| exact Hn].
    rewrite append_assoc. now rewrite <- Hs.
  - exists "". rewrite trimStart_fixed by exact E.
    split; [constructor |]. split; [reflexivity |].
    intros H. apply startsb_iff in H. congruence.
Qed.

Lemma blankb_iff (s : string) : JS.blankb s = true <-> blank s.
Proof.
  split.
  - remember (String.length s) as k eqn:Hk.
    revert s Hk. induction k as [k IH] using lt_wf_ind. intros s Hk Hb.
    destruct s as [|x s']; [constructor |].
    destruct (startsb (String x s')) eqn:E.
    + apply startsb_iff in E. destruct E as (w & r & Hw & E).
      rewrite E in *. pose proof (ws_nonempty w Hw) as Hlen.
      rewrite blankb_ws in Hb by exact Hw.
      constructor; [exact Hw |].
      apply (IH (String.length r)); [rewrite Hk, length_append; lia | reflexivity | exact Hb].
    + rewrite blankb_not_started in Hb; [discriminate | discriminate | exact E].
  - intros H. induction H as [|w r Hw Hr IH]; [reflexivity |].
    now rewrite blankb_ws.
Qed.

Lemma trimEnd_spec (s : string) :
  exists b : string, blank b /\ s = JS.trimEnd s ++ b.
Proof.
  induction s as [|c r IH]; [exists ""; split; [constructor | reflexivity] |].
  cbn [JS.trimEnd]. destruct (JS.blankb (String c r)) eqn:E.
  - exists (String c r). split; [now apply blankb_iff | reflexivity].
  - destruct IH as (b & Hb & Hr). exists b. split; [exact Hb |].
    simpl. now rewrite <- Hr.
Qed.

Lemma trimEnd_no_end (s : string) : ~ ends_with_ws (JS.trimEnd s).
Proof.
  induction s as [|c r IH].
  - intros (w & p & Hw & E). pose proof (ws_nonempty w Hw) as L.
    apply (f_equal String.length) in E. rewrite length_append in E.
    simpl in E. lia.
  - cbn [JS.trimEnd]. destruct (JS.blankb (String c r)) eqn:E.
    + intros (w & p & Hw & E'). pose proof (ws_nonempty w Hw) as L.
      apply (f_equal String.length) in E'. rewrite length_append in E'.
      simpl in E'. lia.
    + intros (w & p & Hw & E'). destruct p as [|x p]; simpl in E'.
      * destruct (trimEnd_spec r) as (b & Hb & Hr).
        assert (B : blank (String c r)).
        { rewrite Hr. change (blank (String c (JS.trimEnd r) ++ b)).
          rewrite E'. now constructor. }
        apply blankb_iff in B. congruence.
      * injection E' as _ E'. apply IH. now exists w, p.
Qed.

Lemma trimEnd_no_start (s : string) :
  ~ starts_with_ws s -> ~ starts_with_ws (JS.trimEnd s).
Proof.
  intros Hs (w & r & Hw & E). apply Hs.
  destruct (trimEnd_spec s) as (b & _ & Hb).
  exists w, (r ++ b). split; [exact Hw |].
  rewrite Hb at 1. rewrite E. apply append_assoc.
Qed.

Lemma trim_spec (s : string) :
  exists a b : string,
    blank a /\ blank b /\ s = a ++ JS.trim s ++ b /\
    ~ starts_with_ws (JS.trim s) /\ ~ ends_with_ws (JS.trim s).
Proof.
  destruct (trimStart_spec s) as (a & Ha & Hs & Hn).
  destruct (trimEnd_spec (JS.trimStart s)) as (b & Hb & He).
  exists a, b. unfold JS.trim.
  split; [exact Ha |]. split; [exact Hb |].
  split; [now rewrite <- He |].
  split; [now apply trimEnd_no_start | apply trimEnd_no_end].
Qed.

Lemma trim_blank (s : string) : JS.trim s = "" <-> blank s.
Proof.
  split.
  - intros E. destruct (trim_spec s) as (a & b & Ha & Hb & Hs & _).
    rewrite E in Hs. rewrite Hs. now apply blank_app.
  - intros H. unfold JS.trim.
    rewrite <- (append_nil_r s), trimStart_blank by exact H. reflexivity.
Qed.

Lemma blank_ends (u : string) : blank u -> u <> "" -> ends_with_ws u.
Proof.
  induction 1 as [|w s Hw Hs IH]; [contradiction |]. intros _.
  destruct s as [|x s'] eqn:E.
  - exists w, "". split; [exact Hw |]. now rewrite append_nil_r.
  - destruct IH as (w' & p & Hw' & Ep); [discriminate |].
    exists w', (w ++ p)%string. split; [exact Hw' |].
    rewrite Ep. symmetry. apply append_assoc.
Qed.

Lemma trimEnd_fixed (t : string) : ~ ends_with_ws t -> JS.trimEnd t = t.
Proof.
  induction t as [|c r IH]; [reflexivity |]. intros Hn.
  cbn [JS.trimEnd]. destruct (JS.blankb (String c r)) eqn:E.
  - exfalso. apply Hn. apply blank_ends; [now apply blankb_iff | discriminate].
  - rewrite IH; [reflexivity |].
    intros (w & p & Hw & Ep). apply Hn.
    exists w, (String c p). split; [exact Hw |]. simpl. now rewrite Ep.
Qed.

Lemma trim_idem (s : string) : JS.trim (JS.trim s) = JS.trim s.
Proof.
  destruct (trim_spec s) as (_ & _ & _ & _ & _ & Hs & He).
  unfold JS.trim at 1. rewrite trimStart_fixed.
  - now apply trimEnd_fixed.
  - destruct (startsb (JS.trim s)) eqn:E; [| reflexivity].
    apply startsb_iff in E. contradiction.
Qed.

(** What is cut off determines what is left: a white-space character
    begins with a byte that continues no character, and goes on with
    bytes that do. *)
Lemma ws_bytes (w : string) :
  In w JS.whiteSpaceChars ->
  exists (a : ascii) (w' : string),
    w = String a w' /\ continuation a = false /\
    forall u v x, w' = (u ++ String x v)%string -> continuation x = true.
Proof.
  intros H. unfold JS.whiteSpaceChars in H.
  each_ws H; eexists _, _; (split; [reflexivity |]); (split; [reflexivity |]);
    intros u v x E;
    repeat (destruct u as [|? u]; simpl in E;
            [injection E as <- _; reflexivity | injection E as _ E]);
    destruct u; discriminate.
Qed.

Lemma blank_first (b : string) :
  blank b ->
  match b with
  | EmptyString => True
  | String a _ => continuation a = false
  end.
Proof.
  intros [|w s Hw _]; [exact I |].
  destruct (ws_bytes w Hw) as (a & w' & -> & Ha & _). exact Ha.
Qed.

Lemma append_split (w s u b : string) :
  (w ++ s = u ++ b)%string ->
  (exists u', u = w ++ u' /\ s = u' ++ b)%string \/
  (exists x v, w = u ++ String x v /\ b = String x v ++ s)%string.
Proof.
  revert u. induction w as [|c w IH]; intros u E; simpl in E.
  - left. now exists u.
  - destruct u as [|d u]; simpl in E.
    + right. now exists c, w.
    + injection E as <- E. destruct (IH u E) as [(u' & -> & ->) | (x & v & -> & ->)].
      * left. now exists u'.
      * right. now exists x, v.
Qed.

Lemma not_started_append (t b : string) :
  blank b -> ~ starts_with_ws t -> t <> "" -> ~ starts_with_ws (t ++ b).
Proof.
  intros Hb Hn Ht (w & r & Hw & E). symmetry in E.
  destruct (append_split w r t b E) as [(u' & -> & _) | (x & v & Ew & Eb)].
  - apply Hn. now exists w, u'.
  - destruct (ws_bytes w Hw) as (a & w' & -> & _ & Hc).
    destruct t as [|a' t']; [contradiction |]. simpl in Ew.
    injection Ew as _ Ew. specialize (Hc t' v x Ew).
    pose proof (blank_first b Hb) as Hf. rewrite Eb in Hf. simpl in Hf.
    congruence.
Qed.

Lemma not_blank_append (u b : string) :
  blank b -> ~ ends_with_ws u -> u <> "" -> ~ blank (u ++ b).
Proof.
  intros Hb. remember (String.length u) as k eqn:Hk. revert u Hk.
  induction k as [k IH] using lt_wf_ind. intros u Hk Hn Hu Hbl.
  inversion Hbl as [E | w s Hw Hs E].
  - destruct u; [contradiction | discriminate].
  - destruct (append_split w s u b E) as [(u' & -> & ->) | (x & v & Ew & Eb)].
    + pose proof (ws_nonempty w Hw) as Hlen.
      destruct u' as [|y u'].
      * rewrite append_nil_r in Hn. apply Hn. exists w, "".
        split; [exact Hw | reflexivity].
      * apply (IH (String.length (String y u'))) with (u := String y u');
          [rewrite Hk, length_append; lia | reflexivity | | discriminate | exact Hs].
        intros (w1 & p & Hw1 & Ep). apply Hn. exists w1, (w ++ p)%string.
        split; [exact Hw1 |]. rewrite Ep. symmetry. apply append_assoc.
    + destruct (ws_bytes w Hw) as (a & w' & -> & _ & Hc).
      destruct u as [|a' u']; [contradiction |]. simpl in Ew.
      injection Ew as _ Ew. specialize (Hc u' v x Ew).
      pose proof (blank_first b Hb) as Hf. rewrite Eb in Hf. simpl in Hf.
      congruence.
Qed.

Lemma trimEnd_append (t b : string) :
  blank b -> ~ ends_with_ws t -> JS.trimEnd (t ++ b) = t.
Proof.
  intros Hb. induction t as [|c t IH]; intros Hn.
  - simpl. destruct b as [|x b]; [reflexivity |]. cbn [JS.trimEnd].
    apply blankb_iff in Hb. now rewrite Hb.
  - change (JS.trimEnd (String c (t ++ b)) = String c t). cbn [JS.trimEnd].
    destruct (JS.blankb (String c (t ++ b))) eqn:E.
    + exfalso. apply blankb_iff in E.
      apply (not_blank_append (String c t) b Hb Hn); [discriminate | exact E].
    + rewrite IH; [reflexivity |].
      intros (w & p & Hw & Ep). apply Hn.
      exists w, (String c p). split; [exact Hw |]. simpl. now rewrite Ep.
Qed.

Lemma trimmed_of_trim (l t : string) : trimmed_of l t -> t = JS.trim l.
Proof.
  intros (a & b & Ha & Hb & -> & Hs & He). unfold JS.trim.
  rewrite trimStart_blank by exact Ha.
  destruct t as [|c t].
  - simpl. rewrite <- (append_nil_r b), trimStart_blank by exact Hb.
    reflexivity.
  - rewrite trimStart_fixed.
    + symmetry. now apply trimEnd_append.
    + destruct (startsb (String c t ++ b)) eqn:E; [| reflexivity].
      apply startsb_iff in E. exfalso.
      apply (not_started_append (String c t) b Hb Hs); [discriminate | exact E].
Qed.

Lemma count_char_append (c : ascii) (a b : string) :
  count_char c (a ++ b) = (count_char c a + count_char c b)%nat.
Proof. induction a as [|x a IH]; simpl; [reflexivity | rewrite IH; lia]. Qed.

Lemma count_char_trim (c : ascii) (s : string) :
  (count_char c (JS.trim s) <= count_char c s)%nat.
Proof.
  destruct (trim_spec s) as (a & b & _ & _ & Hs & _).
  rewrite Hs at 2. rewrite !count_char_append. lia.
Qed.

Lemma without_blank_filter (ls : list string) :
  without_blank ls (filter (fun l => negb (String.eqb (JS.trim l) "")) ls).
Proof.
  induction ls as [|l ls IH]; simpl; [constructor |].
  destruct (String.eqb (JS.trim l) "") eqn:E; simpl.
  - apply without_blank_skip; [| exact IH].
    apply trim_blank. now apply String.eqb_eq.
  - apply without_blank_keep; [| exact IH].
    intros H. apply trim_blank in H. apply String.eqb_neq in E. contradiction.
Qed.

Lemma concat_split (c : ascii) (s : string) :
  String.concat (String c "") (JS.split c s) = s.
Proof.
  induction s as [|x r IH]; simpl; [reflexivity |].
  assert (Hne : JS.split c r <> []).
  { destruct r as [|y r']; simpl; [discriminate |].
    destruct (Ascii.eqb y c); [discriminate |].
    destruct (JS.split c r'); discriminate. }
  destruct (JS.split c r) as [|p ps]; [contradiction |].
  destruct (Ascii.eqb x c) eqn:E.
  - apply Ascii.eqb_eq in E. subst x. simpl in *. now rewrite IH.
  - destruct ps; simpl in *; now rewrite <- IH.
Qed.

Lemma split_parts_no_sep (c : ascii) (s : string) :
  Forall (fun p => count_char c p = O) (JS.split c s).
Proof.
  induction s as [|x r IH]; simpl; [now repeat constructor |].
  destruct (Ascii.eqb x c) eqn:E; [now constructor |].
  destruct (JS.split c r) as [|p ps].
  - constructor; [simpl; now rewrite E | constructor].
  - inversion IH as [|? ? Hp Hps]; subst.
    constructor; [| exact Hps]. simpl. now rewrite E.
Qed.

(** ** The manual fallback *)

Lemma mapM_zero_lines (rnd : nat -> string) (ls : list string) :
  forall n : nat,
    exists rawLines : list LyricLine,
      mapM (fun l => i <- generateId ;;
                     ret {| id := i; timestamp := 0; text := JS.trim l;
                            needsReview := Some true |}) ls rnd n
        = (Ok rawLines, (n + length ls)%nat) /\
      map text rawLines = map JS.trim ls /\
      map id rawLines = map rnd (seq n (length ls)) /\
      Forall (fun line => timestamp line = 0 /\ needsReview line = Some true)
             rawLines.
Proof.
  induction ls as [|l ls IH]; intros n; simpl.
  - exists []. rewrite Nat.add_0_r. now repeat split.
  - destruct (IH (S n)) as (rest & Hrun & Htext & Hid & Hall).
    exists ({| id := rnd n; timestamp := 0; text := JS.trim l;
               needsReview := Some true |} :: rest).
    unfold bind, generateId, ret in *. rewrite Hrun. simpl.
    rewrite Htext, Hid, Nat.add_succ_r.
    repeat split; try reflexivity. now constructor.
Qed.

Lemma manualLines_spec (text0 : string) (rnd : nat -> string) (n : nat) :
  exists rawLines : list LyricLine,
    manualLines text0 rnd n = (Ok rawLines, (n + length rawLines)%nat) /\
    map text rawLines = keptLines text0 /\
    map id rawLines = map rnd (seq n (length rawLines)) /\
    Forall (fun line => timestamp line = 0 /\ needsReview line = Some true)
           rawLines.
Proof.
  destruct (mapM_zero_lines rnd
              (filter (fun l => negb (String.eqb (JS.trim l) ""))
                      (JS.split LF text0)) n)
    as (rawLines & Hrun & Htext & Hid & Hall).
  assert (Hlen : length rawLines =
                 length (filter (fun l => negb (String.eqb (JS.trim l) ""))
                                (JS.split LF text0))).
  { rewrite <- (length_map text rawLines), Htext. apply length_map. }
  exists rawLines. unfold manualLines, keptLines. rewrite Hlen.
  now repeat split.
Qed.

Lemma fallbackLines_manualLines : fallbackLines = manualLines.
Proof. reflexivity. Qed.

(** C8. For every raw lyrics text, the manual fallback returns (it does not
    throw) exactly one line per line of the text that is not blank, in the
    order of the text.  The text is split at line feeds: the parts joined by
    line feeds are the text again and no part holds a line feed.  The parts
    made of white space only (the empty part among them) are discarded and
    no other part is.  The text of each line built is the part it comes
    from without the white space at its two ends, so it neither begins nor
    ends with a white-space character, and each line built has timestamp 0
    and [needsReview = true].  When the controller takes its failure path on
    the text [line one / line two / (empty) / line three] the state ends in
    [EDITING] with exactly 3 such lines; on a text whose parts include an
    empty one, one of spaces and a tab, and one holding U+3000 and U+00A0
    only, those three are discarded and the two others are kept, trimmed.
    A part has one text without the white space at its ends, no more. *)
Theorem manualLines_correct :
  (forall (text0 : string) (rnd : nat -> string) (n : nat),
     exists (rawLines : list LyricLine) (kept : list string),
       manualLines text0 rnd n = (Ok rawLines, (n + length rawLines)%nat) /\
       String.concat nl (JS.split LF text0) = text0 /\
       Forall (fun part => count_char LF part = O) (JS.split LF text0) /\
       without_blank (JS.split LF text0) kept /\
       Forall2 trimmed_of kept (map text rawLines) /\
       map text rawLines =
         map JS.trim
             (filter (fun l => negb (String.eqb (JS.trim l) ""))
                     (JS.split LF text0)) /\
       Forall (fun line => timestamp line = 0 /\ needsReview line = Some true)
              rawLines) /\
  (let text0 := ("line one" ++ nl ++ "line two" ++ nl ++ nl ++ "line three")%string in
   let env := mkEnv (Throw "encoding failed") (Ok text0) (Ok text0) EmptyText in
   let rnd := fun k : nat => JS.toString (Z.of_nat k) in
   let st' := fst (fst (handleAutoProcess env ready rnd 0%nat)) in
   status st' = EDITING /\
   lines st' = [mkLine "0" 0 "line one" (Some true);
                mkLine "1" 0 "line two" (Some true);
                mkLine "2" 0 "line three" (Some true)]) /\
  (let tab := JS.utf8 0x0009 in
   let cr := JS.utf8 0x000D in
   let no_break_space := JS.utf8 0x00A0 in
   let ideographic_space := JS.utf8 0x3000 in
   let text0 := ("  line one " ++ cr ++ nl ++ nl ++ "  " ++ tab ++ nl ++
                 ideographic_space ++ no_break_space ++ nl ++
                 ideographic_space ++ "line  two" ++ tab)%string in
   let env := mkEnv (Throw "encoding failed") (Ok text0) (Ok text0) EmptyText in
   let rnd := fun k : nat => JS.toString (Z.of_nat k) in
   let st' := fst (fst (handleAutoProcess env ready rnd 0%nat)) in
   status st' = EDITING /\
   lines st' = [mkLine "0" 0 "line one" (Some true);
                mkLine "1" 0 "line  two" (Some true)]) /\
  (forall l t t' : string, trimmed_of l t -> trimmed_of l t' -> t = t').
Proof.
  split; [| split; [now vm_compute | split; [now vm_compute |]]].
  2: { intros l t t' H H'.
       now rewrite (trimmed_of_trim l t H), (trimmed_of_trim l t' H'). }
  intros text0 rnd n.
  destruct (manualLines_spec text0 rnd n) as (rawLines & Hrun & Htext & _ & Hall).
  exists rawLines,
    (filter (fun l => negb (String.eqb (JS.trim l) "")) (JS.split LF text0)).
  split; [exact Hrun |].
  split; [apply (concat_split LF) |].
  split; [apply split_parts_no_sep |].
  split; [apply without_blank_filter |].
  split; [| split; [exact Htext | exact Hall]].
  rewrite Htext. unfold keptLines.
  generalize (filter (fun l => negb (String.eqb (JS.trim l) ""))
                     (JS.split LF text0)).
  intros ls. induction ls as [|l ls IH]; simpl; constructor.
  - apply trim_spec.
  - exact IH.
Qed.

(** ** Non-negative timestamps *)

Lemma Math_max_lower (x y : Q) : x <= JS.Math_max x y.
Proof.
  unfold JS.Math_max. destruct (JS.ltb x y) eqn:E.
  - apply ltb_iff in E. now apply Qlt_le_weak.
  - apply Qle_refl.
Qed.

Lemma handleUpdateLine_nonneg (id0 : string) (updates : PartialLyricLine)
    (st : AppState) :
  (forall t, p_timestamp updates = Some t -> 0 <= t) ->
  timestamps_nonneg st ->
  timestamps_nonneg (handleUpdateLine id0 updates st).
Proof.
  unfold timestamps_nonneg, handleUpdateLine. rewrite lines_setLines.
  intros Hu Hst. apply Forall_map. revert Hst. apply Forall_impl.
  intros line Hline. destruct (String.eqb (id line) id0); [| exact Hline].
  simpl. destruct (p_timestamp updates) as [t|]; [now apply Hu | exact Hline].
Qed.

(** C5 (as the code has it).  Starting from lines whose timestamps are all
    [>= 0], the timestamps stay [>= 0] under: a nudge ([adjustTime], any
    delta: the result is clamped at 0); [handleSync] when the position the
    audio element reports is [>= 0]; [handleInsertAfter]; [appendLine] when
    the playback position is [>= 0]; [handleDeleteLine]; and
    [handleUpdateLine] when the fields it is given hold no timestamp or a
    timestamp [>= 0].  The lines of the manual fallback have timestamp 0.
    ([handleUpdateLine] itself merges the fields it is given and clamps
    nothing.) *)
Theorem timestamps_nonneg_preserved :
  forall st : AppState,
    timestamps_nonneg st ->
    (forall line delta, timestamps_nonneg (adjustTime line delta st)) /\
    (forall id0,
       (forall position, player st = Some position -> 0 <= position) ->
       timestamps_nonneg (handleSync id0 st)) /\
    (forall index rnd n,
       match fst (handleInsertAfter index st rnd n) with
       | Ok st' => timestamps_nonneg st'
       | Throw _ => ~ (index < length (lines st))%nat
       end) /\
    (0 <= currentTime st ->
     forall rnd n, exists st',
       appendLine st rnd n = (Ok st', S n) /\ timestamps_nonneg st') /\
    (forall confirmed id0,
       timestamps_nonneg (handleDeleteLine confirmed id0 st)) /\
    (forall id0 updates,
       (forall t, p_timestamp updates = Some t -> 0 <= t) ->
       timestamps_nonneg (handleUpdateLine id0 updates st)) /\
    (forall text0 rnd n,
       match fst (manualLines text0 rnd n) with
       | Ok rawLines => timestamps_nonneg (setLines rawLines st)
       | Throw _ => False
       end).
Proof.
  intros st Hst.
  split; [| split; [| split; [| split; [| split; [| split]]]]].
  - intros line delta. apply handleUpdateLine_nonneg; [| exact Hst].
    simpl. intros t [= <-]. apply Math_max_lower.
  - intros id0 Hp. unfold handleSync.
    destruct (player st) as [position|] eqn:E; [| exact Hst].
    apply handleUpdateLine_nonneg; [| exact Hst].
    simpl. intros t [= <-]. now apply Hp.
  - intros index rnd n. unfold handleInsertAfter.
    destruct (nth_error (lines st) index) as [prevLine|] eqn:E.
    + unfold bind, generateId, ret. simpl.
      unfold timestamps_nonneg in *. rewrite lines_setLines.
      unfold JS.splice_insert.
      assert (Hprev : 0 <= timestamp prevLine).
      { pose proof (proj1 (Forall_forall _ _) Hst prevLine) as H.
        apply H. eapply nth_error_In, E. }
      rewrite <- (firstn_skipn (index + 1) (lines st)) in Hst.
      apply Forall_app in Hst. destruct Hst as [Hfirst Hskip].
      apply Forall_app. split; [exact Hfirst |].
      constructor; [| exact Hskip].
      simpl. destruct (JS.ltb (timestamp prevLine) (currentTime st)) eqn:El.
      * apply ltb_iff in El. lra.
      * lra.
    + simpl. apply nth_error_None in E. lia.
  - intros Hc rnd n. eexists. split; [reflexivity |].
    unfold timestamps_nonneg in *. rewrite lines_setLines.
    apply Forall_app. split; [exact Hst |]. now repeat constructor.
  - intros confirmed id0. unfold handleDeleteLine.
    destruct confirmed; [| exact Hst].
    unfold timestamps_nonneg in *. rewrite lines_setLines.
    rewrite Forall_forall in *. intros line Hin.
    apply filter_In in Hin. now apply Hst.
  - intros id0 updates Hu. now apply handleUpdateLine_nonneg.
  - intros text0 rnd n.
    destruct (manualLines_spec text0 rnd n) as (rawLines & Hrun & _ & _ & Hall).
    rewrite Hrun. simpl. unfold timestamps_nonneg. rewrite lines_setLines.
    revert Hall. apply Forall_impl. intros line [-> _]. apply Qle_refl.
Qed.

(** A nudge of -0.1 on a line at 0.05 is clamped at 0. *)
Lemma timestamps_nonneg_preserved_witness :
  timestamps_nonneg
    (adjustTime (lineAt "a" (1 # 20)) (- (1 # 10))
                (editing [lineAt "a" (1 # 20); lineAt "b" 5] 3)).
Proof.
  refine (proj1 (timestamps_nonneg_preserved
                   (editing [lineAt "a" (1 # 20); lineAt "b" 5] 3) _) _ _).
  repeat constructor; simpl; discriminate.
Defined.

(** C5 as the specification states it fails: [handleUpdateLine] with the
    field [timestamp: -1] turns a state whose timestamps are all [>= 0] into
    one holding a negative timestamp. *)
Lemma handleUpdateLine_installs_negative :
  let st := editing [lineAt "a" 1] 0 in
  let updates := mkPartial None (Some (-1)) None None in
  timestamps_nonneg st /\
  lines (handleUpdateLine "a" updates st) = [lineAt "a" (-1)] /\
  ~ timestamps_nonneg (handleUpdateLine "a" updates st).
Proof.
  split; [| split].
  - repeat constructor. simpl. discriminate.
  - reflexivity.
  - intros H. inversion H as [|? ? Hneg _]. now apply Hneg.
Qed.

(** C10. [parseLrcTime] has no lower bound: ["-1:30"] parses to -30 and
    ["[00:-5.0]"] to -5, both negative rather than 0.  The mapping of the
    AI answer installs the parse result of the entry's time as the line's
    timestamp as it is, so an answer holding the time ["-1:30"] makes
    [analyzeLyricsWithAudio] return, and [handleAutoProcess] store, a line
    with timestamp -30. *)
Theorem parseLrcTime_negative_enters_document :
  (parseLrcTime "-1:30" == -30 /\ parseLrcTime "-1:30" < 0) /\
  (parseLrcTime "[00:-5.0]" == -5 /\ parseLrcTime "[00:-5.0]" < 0) /\
  (forall (timeStr txt : string) (conf : option Q) (rnd : nat -> string)
          (n : nat),
     exists flag : bool,
       mapEntry (mkEntry (Some timeStr) txt conf) rnd n =
         (Ok (mkLine (rnd n) (parseLrcTime timeStr) txt (Some flag)), S n)) /\
  (let answer := Lines [mkEntry (Some "-1:30") "la" (Some (9 # 10))] in
   let env := mkEnv (Ok "base64") (Ok "la") (Ok "la") answer in
   let rnd := fun k : nat => JS.toString (Z.of_nat k) in
   fst (analyzeLyricsWithAudio answer "la" rnd 0%nat) =
     Ok [mkLine "0" (parseLrcTime "-1:30") "la" (Some false)] /\
   let st' := fst (fst (handleAutoProcess env ready rnd 0%nat)) in
   status st' = EDITING /\
   map timestamp (lines st') = [parseLrcTime "-1:30"] /\
   ~ timestamps_nonneg st').
Proof.
  split; [now vm_compute | split; [now vm_compute | split]].
  - intros timeStr txt conf rnd n. destruct conf; eexists; reflexivity.
  - cbv zeta. split; [now vm_compute | split; [now vm_compute | split]].
    + now vm_compute.
    + intros H. vm_compute in H. inversion H as [|? ? Hneg _].
      now apply Hneg.
Qed.

(** ** Failure of the AI call *)

Lemma mapM_mapEntry_throws (rnd : nat -> string) (entries : list AiEntry) :
  existsb (fun e => match time e with None => true | Some _ => false end)
          entries = true ->
  forall n, exists e n1,
    mapM mapEntry entries rnd n = (Throw e, n1) /\ (n <= n1)%nat.
Proof.
  induction entries as [|a entries IH]; simpl; [discriminate |].
  intros H n. unfold bind at 1. unfold mapEntry at 1.
  unfold bind at 1. unfold generateId at 1.
  destruct (time a) as [timeStr|] eqn:Et; simpl in H.
  - destruct (IH H (S n)) as (e & n1 & Hrun & Hle).
    destruct (JS.lessThan (confidence a) (7 # 10)) as [below|].
    + unfold bind, ret. simpl. unfold bind in Hrun. rewrite Hrun.
      exists e, n1. split; [reflexivity | lia].
    + unfold bind, ret, throw. simpl. eexists _, _.
      split; [reflexivity | lia].
  - unfold bind, throw. simpl. eexists _, _. split; [reflexivity | lia].
Qed.

Lemma analyze_failure (outcome : AiOutcome) (rawLyrics : string)
    (rnd : nat -> string) (n : nat) :
  ai_fails outcome = true ->
  exists n1, (n <= n1)%nat /\
    analyzeLyricsWithAudio outcome rawLyrics rnd n
      = manualLines rawLyrics rnd n1.
Proof.
  intros Hf. unfold analyzeLyricsWithAudio, try_catch.
  rewrite fallbackLines_manualLines.
  destruct outcome as [e|  |e|e|entries]; simpl;
    try (exists n; split; [lia | reflexivity]).
  destruct (mapM_mapEntry_throws rnd entries Hf n) as (e & n1 & Hrun & Hle).
  rewrite Hrun. now exists n1.
Qed.

(** C6 (as the code has it).  Whenever the AI call fails (the request is
    rejected, the answer is empty, is not JSON, has no [lines] array, or
    holds an entry without a time string), [analyzeLyricsWithAudio] catches
    the failure itself and returns, as an ordinary result, the manual-mode
    lines built from the raw lyrics alone (no entry of the answer is kept);
    [handleAutoProcess] then ends in [EDITING] with these lines and shows
    no alert.  With both files present and the audio within the size limit,
    [handleAutoProcess] shows an alert exactly when encoding the audio or
    reading the lyrics text fails. *)
Theorem ai_failure_is_absorbed :
  (forall (outcome : AiOutcome) (rawLyrics : string) (rnd : nat -> string)
          (n : nat),
     ai_fails outcome = true ->
     exists (rawLines : list LyricLine) (n1 : nat),
       analyzeLyricsWithAudio outcome rawLyrics rnd n = (Ok rawLines, n1) /\
       map text rawLines = keptLines rawLyrics /\
       Forall (fun line => timestamp line = 0 /\ needsReview line = Some true)
              rawLines) /\
  (forall (env : Env) (st : AppState) (rnd : nat -> string) (n : nat)
          (audio lyrics : File) (b64 textContent : string),
     audioFile st = Some audio -> textFile st = Some lyrics ->
     (file_size audio <= 25 * 1024 * 1024)%N ->
     fileToBase64 env = Ok b64 -> text_first env = Ok textContent ->
     ai_fails (ai env) = true ->
     let st' := fst (fst (handleAutoProcess env st rnd n)) in
     let shown := snd (fst (handleAutoProcess env st rnd n)) in
     shown = [] /\ status st' = EDITING /\
     map text (lines st') = keptLines textContent /\
     Forall (fun line => timestamp line = 0 /\ needsReview line = Some true)
            (lines st')) /\
  (forall (env : Env) (st : AppState) (rnd : nat -> string) (n : nat)
          (audio lyrics : File),
     audioFile st = Some audio -> textFile st = Some lyrics ->
     (file_size audio <= 25 * 1024 * 1024)%N ->
     let shown := snd (fst (handleAutoProcess env st rnd n)) in
     (shown <> [] <->
      (exists e, fileToBase64 env = Throw e) \/
      (exists e, text_first env = Throw e))).
Proof.
  split; [| split].
  - intros outcome rawLyrics rnd n Hf.
    destruct (analyze_failure outcome rawLyrics rnd n Hf) as (n1 & _ & Hrun).
    destruct (manualLines_spec rawLyrics rnd n1)
      as (rawLines & Hm & Htext & _ & Hall).
    exists rawLines, (n1 + length rawLines)%nat.
    rewrite Hrun, Hm. now repeat split.
  - intros env st rnd n audio lyrics b64 textContent Ha Ht Hsize Hb Hr Hf.
    destruct (analyze_failure (ai env) textContent rnd n Hf) as (n1 & _ & Hrun).
    destruct (manualLines_spec textContent rnd n1)
      as (rawLines & Hm & Htext & _ & Hall).
    assert (E : handleAutoProcess env st rnd n =
                (setStatus EDITING (setLines rawLines (setStatus PROCESSING st)),
                 [], (n1 + length rawLines)%nat)).
    { unfold handleAutoProcess. rewrite Ha, Ht.
      apply N.ltb_ge in Hsize. rewrite Hsize.
      unfold bind at 1. unfold lift at 1. rewrite Hb.
      unfold bind at 1. unfold lift at 1. rewrite Hr.
      now rewrite Hrun, Hm. }
    rewrite E. simpl. now repeat split.
  - intros env st rnd n audio lyrics Ha Ht Hsize.
    unfold handleAutoProcess. rewrite Ha, Ht.
    apply N.ltb_ge in Hsize. rewrite Hsize.
    unfold bind at 1. unfold lift at 1.
    destruct (fileToBase64 env) as [b64|e] eqn:Hb.
    + unfold bind at 1. unfold lift at 1.
      destruct (text_first env) as [textContent|e] eqn:Hr.
      * assert (Hok : exists ls n1,
                   analyzeLyricsWithAudio (ai env) textContent rnd n
                   = (Ok ls, n1)).
        { unfold analyzeLyricsWithAudio, try_catch.
          destruct (match ai env with
                    | CallRejected e | InvalidJson e | NoLinesArray e => throw e
                    | EmptyText => throw "No response from AI"
                    | Lines entries => mapM mapEntry entries
                    end rnd n) as [[ls|e] n1].
          - now exists ls, n1.
          - rewrite fallbackLines_manualLines.
            destruct (manualLines_spec textContent rnd n1)
              as (rawLines & Hm & _). rewrite Hm. now eexists _, _. }
        destruct Hok as (ls & n1 & Hok). rewrite Hok. simpl.
        split; [intros H; now contradiction H |].
        intros [[e He] | [e He]]; discriminate.
      * split; [intros _; right; now exists e |]. intros _.
        destruct (text_again env) as [t|e'];
          [destruct (manualLines t rnd n) as [[rl|e'] n2] |];
          simpl; discriminate.
    + split; [intros _; left; now exists e |]. intros _.
      destruct (text_again env) as [t|e'];
        [destruct (manualLines t rnd n) as [[rl|e'] n2] |];
        simpl; discriminate.
Qed.

(** A rejected request, both files read without error. *)
Lemma ai_failure_is_absorbed_witness :
  let env := mkEnv (Ok "base64") (Ok "la") (Ok "la")
                   (CallRejected "Failed to fetch") in
  snd (fst (handleAutoProcess env ready (fun _ => "x") 0%nat)) = [] /\
  status (fst (fst (handleAutoProcess env ready (fun _ => "x") 0%nat)))
    = EDITING.
Proof.
  cbv zeta.
  destruct (proj1 (proj2 ai_failure_is_absorbed)
              (mkEnv (Ok "base64") (Ok "la") (Ok "la")
                     (CallRejected "Failed to fetch"))
              ready (fun _ => "x") 0%nat
              (mkFile "song.mp3" "audio/mpeg" 4000000)
              (mkFile "song.txt" "text/plain" 40)
              "base64" "la" eq_refl eq_refl)
    as (Hshown & Hstatus & _).
  - vm_compute. discriminate.
  - reflexivity.
  - reflexivity.
  - reflexivity.
  - split; [exact Hshown | exact Hstatus].
Defined.

(** C6 as the specification states it fails: the request is rejected
    ("Failed to fetch"), yet [analyzeLyricsWithAudio] returns a result,
    the controller's [try] block completes, and no alert is shown. *)
Lemma ai_failure_shows_no_error :
  let outcome := CallRejected "Failed to fetch" in
  let env := mkEnv (Ok "base64") (Ok "la") (Ok "la") outcome in
  let rnd := fun k : nat => JS.toString (Z.of_nat k) in
  ai_fails outcome = true /\
  fst (analyzeLyricsWithAudio outcome "la" rnd 0%nat) =
    Ok [mkLine "0" 0 "la" (Some true)] /\
  handleAutoProcess env ready rnd 0%nat =
    (setStatus EDITING (setLines [mkLine "0" 0 "la" (Some true)] ready),
     [], 1%nat).
Proof. now vm_compute. Qed.

(** ** The round trip of the time codec *)

(** *** Digit strings *)

(** A non-negative integer is printed as a run of digits that reads back
    as the integer; padding adds zeros in front. *)

Lemma toString_nonneg (z : Z) :
  (0 <= z)%Z ->
  exists d, JS.toString z = ustr d /\ d <> Nil /\ N.of_uint d = Z.to_N z.
Proof.
  intros Hz. destruct z as [|p|p]; [| | lia].
  - exists (D0 Nil). repeat split. discriminate.
  - exists (Pos.to_uint p). split; [| split].
    + unfold JS.toString. simpl.
      pose proof (Unsigned.to_uint_nonnil p) as Hn.
      now destruct (Pos.to_uint p).
    + apply Unsigned.to_uint_nonnil.
    + change (N.of_uint (N.to_uint (Npos p)) = Npos p). apply DecimalN.Unsigned.of_to.
Qed.

Lemma repeat_zero_ustr (k : nat) (d : uint) :
  exists d', (JS.repeat_char k "0" ++ ustr d)%string = ustr d' /\
             N.of_uint d' = N.of_uint d /\ (d <> Nil -> d' <> Nil).
Proof.
  induction k as [|k (d' & Hs & Hv & Hn)]; simpl.
  - now exists d.
  - exists (D0 d'). simpl. rewrite Hs. repeat split; [exact Hv | discriminate].
Qed.

Lemma padStart_toString (z : Z) :
  (0 <= z)%Z ->
  exists d, JS.padStart 2 "0" (JS.toString z) = ustr d /\ d <> Nil /\
            Z.of_N (N.of_uint d) = z.
Proof.
  intros Hz. destruct (toString_nonneg z Hz) as (d & Hs & Hn & Hv).
  unfold JS.padStart. rewrite Hs.
  destruct (repeat_zero_ustr (2 - String.length (ustr d)) d) as (d' & Hs' & Hv' & Hn').
  exists d'. rewrite Hs', Hv', Hv. repeat split; [now apply Hn' | lia].
Qed.

Lemma take_digits_ustr (d : uint) (rest : string) :
  not_digit_first rest -> JS.take_digits (ustr d ++ rest) = (d, rest).
Proof.
  intros Hr. induction d; simpl; try (rewrite IHd; reflexivity).
  destruct rest as [|c r]; [reflexivity |]. simpl in *. now rewrite Hr.
Qed.

Lemma replace_brackets_ustr (d : uint) (rest : string) :
  JS.replace_brackets (ustr d ++ rest) = (ustr d ++ JS.replace_brackets rest)%string.
Proof. induction d; simpl; try (rewrite IHd); reflexivity. Qed.

Lemma split_ustr (d : uint) (rest : string) :
  JS.split ":" (ustr d ++ rest) =
  match JS.split ":" rest with
  | p :: ps => (ustr d ++ p)%string :: ps
  | [] => [ustr d]
  end.
Proof.
  assert (Hne : JS.split ":" rest <> []).
  { destruct rest as [|c r]; simpl; [discriminate |].
    destruct (Ascii.eqb c ":"); [discriminate |].
    destruct (JS.split ":" r); discriminate. }
  induction d; simpl; try (rewrite IHd; destruct (JS.split ":" rest); [contradiction | reflexivity]).
  destruct (JS.split ":" rest); [contradiction | reflexivity].
Qed.

Lemma parseInt_ustr (d : uint) :
  d <> Nil -> JS.parseInt (ustr d) = Some (Z.of_N (N.of_uint d)).
Proof.
  intros Hd. unfold JS.parseInt.
  assert (E : JS.take_sign (JS.trimStart (ustr d)) = (false, ustr d)).
  { destruct d; try contradiction; simpl ustr;
      generalize (ustr d); intros [|b [|c r]]; reflexivity. }
  rewrite E. rewrite <- (append_nil_r (ustr d)) at 1.
  rewrite take_digits_ustr by exact I.
  destruct d; try contradiction; reflexivity.
Qed.

(** *** Floors and remainders *)

Lemma Qfloor_unique (q : Q) (z : Z) :
  inject_Z z <= q -> q < inject_Z (z + 1) -> Qfloor q = z.
Proof.
  intros Hl Hu.
  pose proof (Qfloor_le q) as H1. pose proof (Qlt_floor q) as H2.
  assert (A : inject_Z z < inject_Z (Qfloor q + 1)) by lra.
  assert (B : inject_Z (Qfloor q) < inject_Z (z + 1)) by lra.
  rewrite <- Zlt_Qlt in A, B. lia.
Qed.

Lemma truncate_nonneg (q : Q) : 0 <= q -> JS.truncate q = Qfloor q.
Proof.
  intros H. unfold JS.truncate. apply Qle_bool_iff in H. now rewrite H.
Qed.

(** The fields [formatLrcTime] prints for [K] hundredths of a second:
    [K / 6000] minutes, [(K mod 6000) / 100] seconds, [K mod 100]
    hundredths. *)
Lemma codec_fields (x : Q) (K : Z) :
  (0 <= K)%Z -> x * 100 == inject_Z K ->
  JS.Math_floor (x / 60) = (K / 6000)%Z /\
  JS.Math_floor (JS.rem x 60) = (K mod 6000 / 100)%Z /\
  JS.Math_floor (JS.rem x 1 * 100) = (K mod 100)%Z.
Proof.
  intros HK Hx. unfold JS.Math_floor, JS.rem.
  pose proof (Z.div_mod K 6000 ltac:(lia)) as E1.
  pose proof (Z.mod_pos_bound K 6000 ltac:(lia)) as B1.
  pose proof (Z.div_mod (K mod 6000) 100 ltac:(lia)) as E2.
  pose proof (Z.mod_pos_bound (K mod 6000) 100 ltac:(lia)) as B2.
  pose proof (Z.div_mod K 100 ltac:(lia)) as E3.
  pose proof (Z.mod_pos_bound K 100 ltac:(lia)) as B3.
  set (a := (K / 6000)%Z) in *. set (r := (K mod 6000)%Z) in *.
  set (s := (r / 100)%Z) in *. set (c := (r mod 100)%Z) in *.
  set (w := (K / 100)%Z) in *. set (c' := (K mod 100)%Z) in *.
  assert (QK : inject_Z K == 6000 * inject_Z a + inject_Z r).
  { rewrite E1 at 1. rewrite inject_Z_plus, inject_Z_mult. reflexivity. }
  assert (Qr : inject_Z r == 100 * inject_Z s + inject_Z c).
  { rewrite E2 at 1. rewrite inject_Z_plus, inject_Z_mult. reflexivity. }
  assert (Qw : inject_Z K == 100 * inject_Z w + inject_Z c').
  { rewrite E3 at 1. rewrite inject_Z_plus, inject_Z_mult. reflexivity. }
  assert (Br : 0 <= inject_Z r /\ inject_Z r <= 5999).
  { split; [change 0 with (inject_Z 0) | change 5999 with (inject_Z 5999)];
      rewrite <- Zle_Qle; lia. }
  assert (Bc : 0 <= inject_Z c /\ inject_Z c <= 99).
  { split; [change 0 with (inject_Z 0) | change 99 with (inject_Z 99)];
      rewrite <- Zle_Qle; lia. }
  assert (Bc' : 0 <= inject_Z c' /\ inject_Z c' <= 99).
  { split; [change 0 with (inject_Z 0) | change 99 with (inject_Z 99)];
      rewrite <- Zle_Qle; lia. }
  assert (Ba : 0 <= inject_Z a).
  { change 0 with (inject_Z 0). rewrite <- Zle_Qle. subst a. apply Z.div_pos; lia. }
  assert (Bw : 0 <= inject_Z w).
  { change 0 with (inject_Z 0). rewrite <- Zle_Qle. subst w. apply Z.div_pos; lia. }
  assert (F1 : Qfloor (x / 60) = a).
  { apply Qfloor_unique; rewrite ?inject_Z_plus; change (inject_Z 1) with 1;
      unfold Qdiv; change (/ 60) with (1 # 60); lra. }
  assert (F0 : Qfloor (x / 1) = w).
  { apply Qfloor_unique; rewrite ?inject_Z_plus; change (inject_Z 1) with 1;
      unfold Qdiv; change (/ 1) with 1; lra. }
  rewrite !truncate_nonneg
    by (unfold Qdiv; change (/ 60) with (1 # 60); change (/ 1) with 1; lra). rewrite F1, F0.
  split; [reflexivity | split].
  - apply Qfloor_unique; rewrite ?inject_Z_plus; change (inject_Z 1) with 1; lra.
  - assert (Ec : c' = c).
    { subst c c' r. symmetry. apply Z.mod_mod_divide. now exists 60%Z. }
    rewrite <- Ec in *.
    apply Qfloor_unique; rewrite ?inject_Z_plus; change (inject_Z 1) with 1; lra.
Qed.

(** *** The round trip over exact rationals *)

(** Every seconds field (0 to 59) followed by every hundredths field
    (0 to 99) is read back as it was printed. *)
Lemma tail_ok_all :
  forallb (fun s => forallb (tail_ok s) (seq 0 100)) (seq 0 60) = true.
Proof. vm_compute. reflexivity. Qed.

Lemma tail_fields (s c : Z) :
  (0 <= s < 60)%Z -> (0 <= c < 100)%Z ->
  let sscc := (pad2 s ++ "." ++ pad2 c)%string in
  JS.replace_brackets (":" ++ pad2 s ++ "." ++ pad2 c ++ "]")
    = (":" ++ sscc)%string /\
  JS.split ":" sscc = [sscc] /\
  exists q, JS.parseFloat sscc = Some q /\ q == inject_Z s + inject_Z c / 100.
Proof.
  intros Hs Hc.
  pose proof tail_ok_all as H. rewrite forallb_forall in H.
  specialize (H (Z.to_nat s)). rewrite in_seq in H.
  specialize (H ltac:(lia)). rewrite forallb_forall in H.
  specialize (H (Z.to_nat c)). rewrite in_seq in H.
  specialize (H ltac:(lia)). unfold tail_ok in H.
  rewrite !Z2Nat.id in H by lia. cbv zeta in *.
  apply andb_true_iff in H. destruct H as [H H3].
  apply andb_true_iff in H. destruct H as [H1 H2].
  apply String.eqb_eq in H1. split; [exact H1 | split].
  - destruct (JS.split ":" (pad2 s ++ "." ++ pad2 c)) as [|p [|? ?]];
      try discriminate.
    apply String.eqb_eq in H2. now subst p.
  - destruct (JS.parseFloat (pad2 s ++ "." ++ pad2 c)) as [q|]; [| discriminate].
    exists q. split; [reflexivity | now apply Qeq_bool_iff].
Qed.

(** Over exact rationals, for every [x >= 0] such that [100 * x] is an
    integer, [parseLrcTime (formatLrcTime x)] is [x]: the codec loses
    nothing as long as no rounding takes place. *)
Theorem exact_roundtrip (x : Q) :
  0 <= x -> inject_Z (Qfloor (x * 100)) == x * 100 ->
  parseLrcTime (formatLrcTime x) == x.
Proof.
  intros Hx Hgrid. set (K := Qfloor (x * 100)) in *.
  assert (HK : (0 <= K)%Z).
  { change 0%Z with (Qfloor 0). apply Qfloor_resp_le. lra. }
  destruct (codec_fields x K HK (Qeq_sym _ _ Hgrid)) as (Fm & Fs & Fc).
  unfold formatLrcTime. rewrite Fm, Fs, Fc.
  pose proof (Z.div_mod K 6000 ltac:(lia)) as E1.
  pose proof (Z.mod_pos_bound K 6000 ltac:(lia)) as B1.
  pose proof (Z.div_mod (K mod 6000) 100 ltac:(lia)) as E2.
  pose proof (Z.mod_pos_bound (K mod 6000) 100 ltac:(lia)) as B2.
  assert (E3 : ((K mod 6000) mod 100 = K mod 100)%Z).
  { apply Z.mod_mod_divide. now exists 60%Z. }
  set (m := (K / 6000)%Z) in *. set (s := (K mod 6000 / 100)%Z) in *.
  set (c := (K mod 100)%Z) in *.
  assert (Hm : (0 <= m)%Z) by (subst m; apply Z.div_pos; lia).
  assert (Hs : (0 <= s < 60)%Z).
  { subst s. split; [apply Z.div_pos; lia |].
    apply Z.div_lt_upper_bound; lia. }
  assert (Hc : (0 <= c < 100)%Z) by (subst c; apply Z.mod_pos_bound; lia).
  destruct (padStart_toString m Hm) as (d & Hd & Hn & Hv).
  destruct (tail_fields s c Hs Hc) as (Hrb & Hsp & q & Hpf & Hq).
  cbv zeta in Hrb, Hsp. fold (pad2 s) (pad2 c). rewrite Hd.
  unfold parseLrcTime.
  change (JS.replace_brackets
            ("[" ++ ustr d ++ ":" ++ pad2 s ++ "." ++ pad2 c ++ "]"))
    with (JS.replace_brackets
            (ustr d ++ ":" ++ pad2 s ++ "." ++ pad2 c ++ "]")).
  rewrite replace_brackets_ustr, Hrb, split_ustr.
  change (JS.split ":" (":" ++ pad2 s ++ "." ++ pad2 c))
    with ("" :: JS.split ":" (pad2 s ++ "." ++ pad2 c)).
  rewrite Hsp, append_nil_r, (parseInt_ustr d Hn), Hv, Hpf, Hq.
  assert (QK : inject_Z K == 6000 * inject_Z m + 100 * inject_Z s + inject_Z c).
  { rewrite E1 at 1. rewrite E2 at 1. rewrite E3.
    rewrite !inject_Z_plus, !inject_Z_mult. ring. }
  rewrite Hgrid in QK. unfold Qdiv. change (/ 100) with (1 # 100). lra.
Qed.


(** *** The round trip in binary64 *)

(** C1 at the number 0.29, in binary64.  0.29 is the value [parseLrcTime]
    returns for ["[00:00.29]"]: the double nearest to 29/100, which lies
    just below it.  [(0.29 % 1) * 100] is 28.999999999999996, its floor is
    28, so [formatLrcTime] prints ["[00:00.28]"], and parsing that back
    returns 0.28, not 0.29.  The same happens at 1.15, printed as
    ["[00:01.14]"]. *)
Theorem binary64_roundtrip_fails :
  let x := (29 / 100)%float in
  Binary64.parseLrcTime "[00:00.29]" = x /\
  PrimFloat.ltb (Binary64.rem x 1 * 100)%float 29%float = true /\
  Binary64.formatLrcTime x = "[00:00.28]" /\
  Binary64.parseLrcTime (Binary64.formatLrcTime x) = (28 / 100)%float /\
  PrimFloat.eqb (Binary64.parseLrcTime (Binary64.formatLrcTime x)) x = false /\
  Binary64.formatLrcTime (Binary64.parseLrcTime "[00:01.15]") = "[00:01.14]".
Proof. now vm_compute. Qed.

(* ================================================================= *)
(** * Further properties *)

(** ** Splitting *)

Lemma split_nonempty (c : ascii) (s : string) : JS.split c s <> [].
Proof.
  destruct s as [|x r]; simpl; [discriminate |].
  destruct (Ascii.eqb x c); [discriminate |].
  destruct (JS.split c r); discriminate.
Qed.

Lemma length_split (c : ascii) (s : string) :
  length (JS.split c s) = S (count_char c s).
Proof.
  induction s as [|x r IH]; simpl; [reflexivity |].
  destruct (Ascii.eqb x c); simpl; [now rewrite IH |].
  destruct (JS.split c r) as [|p ps] eqn:E; [now destruct (split_nonempty c r) |].
  simpl in *. exact IH.
Qed.

Lemma split_no_sep (c : ascii) (s : string) :
  count_char c s = O -> JS.split c s = [s].
Proof.
  induction s as [|x r IH]; simpl; [reflexivity |].
  destruct (Ascii.eqb x c); [discriminate |]. simpl. intros H.
  now rewrite (IH H).
Qed.

Lemma split_app_sep (c : ascii) (a b : string) :
  JS.split c (a ++ String c b) = (JS.split c a ++ JS.split c b)%list.
Proof.
  induction a as [|x r IH]; simpl.
  - now rewrite Ascii.eqb_refl.
  - destruct (Ascii.eqb x c); [now rewrite IH |].
    rewrite IH. destruct (JS.split c r) as [|p ps] eqn:E; [| reflexivity].
    now destruct (split_nonempty c r).
Qed.

Lemma last_app_nonempty {A} (l1 l2 : list A) (d : A) :
  l2 <> [] -> last (l1 ++ l2) d = last l2 d.
Proof.
  intros H. induction l1 as [|x l1 IH]; [reflexivity |].
  simpl. destruct (l1 ++ l2)%list eqn:E; [| exact IH].
  apply app_eq_nil in E. now destruct E.
Qed.

Lemma replace_brackets_app (a b : string) :
  JS.replace_brackets (a ++ b) =
  (JS.replace_brackets a ++ JS.replace_brackets b)%string.
Proof.
  induction a as [|x r IH]; simpl; [reflexivity |].
  destruct (Ascii.eqb x "[" || Ascii.eqb x "]"); simpl; now rewrite IH.
Qed.

Lemma replace_brackets_idem (s : string) :
  JS.replace_brackets (JS.replace_brackets s) = JS.replace_brackets s.
Proof.
  induction s as [|x r IH]; simpl; [reflexivity |].
  destruct (Ascii.eqb x "[" || Ascii.eqb x "]") eqn:E; [exact IH |].
  simpl. now rewrite E, IH.
Qed.

(** X1. Whenever the string, its square brackets removed, does not hold
    exactly one colon (none, or two and more), [parseLrcTime] returns 0, in
    the exact model and in binary64 alike. *)
Theorem parseLrcTime_needs_one_colon :
  forall s : string,
    count_char ":" (JS.replace_brackets s) <> 1%nat ->
    parseLrcTime s = 0 /\ Binary64.parseLrcTime s = 0%float.
Proof.
  intros s H. unfold parseLrcTime, Binary64.parseLrcTime.
  pose proof (length_split ":" (JS.replace_brackets s)) as L.
  destruct (JS.split ":" (JS.replace_brackets s)) as [|p0 [|p1 [|p2 ps]]];
    simpl in L; try (split; reflexivity).
  exfalso. apply H. lia.
Qed.

(** An instance. *)
Lemma parseLrcTime_needs_one_colon_witness :
  parseLrcTime "1:02:03.5" = 0 /\ Binary64.parseLrcTime "1:02:03.5" = 0%float.
Proof.
  apply parseLrcTime_needs_one_colon. vm_compute. discriminate.
Defined.

(** X2. Square brackets are ignored wherever they stand: [parseLrcTime]
    gives a string and the string with its brackets removed the same
    value, so ["[" ++ s ++ "]"] parses as [s] does, in the exact model and
    in binary64 alike. *)
Theorem parseLrcTime_ignores_brackets :
  forall s : string,
    parseLrcTime s = parseLrcTime (JS.replace_brackets s) /\
    Binary64.parseLrcTime s = Binary64.parseLrcTime (JS.replace_brackets s) /\
    parseLrcTime ("[" ++ s ++ "]") = parseLrcTime s /\
    Binary64.parseLrcTime ("[" ++ s ++ "]") = Binary64.parseLrcTime s.
Proof.
  intros s.
  assert (E : JS.replace_brackets ("[" ++ s ++ "]") = JS.replace_brackets s).
  { change ("[" ++ s ++ "]")%string with (String "[" (s ++ "]")). simpl.
    rewrite replace_brackets_app. simpl. apply append_nil_r. }
  unfold parseLrcTime, Binary64.parseLrcTime.
  now rewrite replace_brackets_idem, E.
Qed.

(** ** More on the line store *)

Lemma filter_drop_id (id0 : string) (l : list LyricLine) :
  ~ In id0 (map id l) ->
  filter (fun line => negb (String.eqb (id line) id0)) l = l.
Proof.
  intros H. apply filter_keeps_all. intros x Hx.
  apply negb_true_iff, String.eqb_neq. intros E. apply H.
  rewrite <- E. now apply in_map.
Qed.

Lemma map_id_update (id0 : string) (u : PartialLyricLine) (l : list LyricLine) :
  p_id u = None ->
  map id (map (fun line => if String.eqb (id line) id0 then spread line u
                           else line) l) = map id l.
Proof.
  intros Hu. rewrite map_map. apply map_ext. intros line.
  destruct (String.eqb (id line) id0); [| reflexivity].
  simpl. now rewrite Hu.
Qed.

Lemma filter_keeps_ids_unique (keep : LyricLine -> bool)
    (ls : list LyricLine) :
  NoDup (map id ls) -> NoDup (map id (filter keep ls)).
Proof.
  intros Hnd. induction ls as [|line ls IH]; simpl; [constructor |].
  simpl in Hnd. inversion Hnd as [|? ? Hfresh Hrest]; subst.
  destruct (keep line); [| now apply IH].
  simpl. constructor; [| now apply IH].
  intros Hin. apply Hfresh. apply in_map_iff in Hin.
  destruct Hin as (x & Hx & Hin). apply filter_In in Hin.
  apply in_map_iff. exists x. now split.
Qed.

Lemma filter_unique_id (l : list LyricLine) :
  NoDup (map id l) ->
  forall (i : nat) (line : LyricLine),
    nth_error l i = Some line ->
    filter (fun x => negb (String.eqb (id x) (id line))) l
      = (firstn i l ++ skipn (S i) l)%list.
Proof.
  induction l as [|a l IH]; intros Hnd i line Hi; [now destruct i |].
  simpl in Hnd. inversion Hnd as [|? ? Hn Hd]; subst.
  destruct i as [|i]; simpl in Hi.
  - injection Hi as ->. simpl. rewrite String.eqb_refl. simpl.
    now apply filter_drop_id.
  - assert (Ha : String.eqb (id a) (id line) = false).
    { apply String.eqb_neq. intros E. apply Hn. rewrite E.
      apply in_map. eapply nth_error_In, Hi. }
    simpl. rewrite Ha. simpl. f_equal. now apply IH.
Qed.

(** X3. After a confirmed [handleDeleteLine id0]: no line carries [id0]; the
    lines left are exactly the lines that carried another id; deleting
    [id0] once more changes nothing; and when the ids are unique and the
    line at position [i] carries [id0], the result is the list without
    position [i], the other lines in their order. *)
Theorem handleDeleteLine_removes :
  forall (st : AppState) (id0 : string),
    let st' := handleDeleteLine true id0 st in
    ~ In id0 (ids st') /\
    (forall line, In line (lines st') <->
                  In line (lines st) /\ id line <> id0) /\
    handleDeleteLine true id0 st' = st' /\
    (forall (i : nat) (line : LyricLine),
       NoDup (ids st) -> nth_error (lines st) i = Some line ->
       id line = id0 ->
       lines st' = (firstn i (lines st) ++ skipn (S i) (lines st))%list).
Proof.
  intros st id0 st'. subst st'. unfold handleDeleteLine, ids.
  rewrite !lines_setLines.
  assert (Hno : ~ In id0 (map id (filter (fun line => negb (String.eqb (id line) id0))
                                     (lines st)))).
  { intros Hin. apply in_map_iff in Hin. destruct Hin as (x & Hx & Hin).
    apply filter_In in Hin. destruct Hin as [_ Hin].
    apply negb_true_iff, String.eqb_neq in Hin. contradiction. }
  split; [exact Hno | split; [| split]].
  - intros line. rewrite filter_In, negb_true_iff, String.eqb_neq. tauto.
  - rewrite (filter_drop_id id0 _ Hno). now destruct st.
  - intros i line Hnd Hi Hid. subst id0. now apply filter_unique_id.
Qed.

(** An instance. *)
Lemma handleDeleteLine_removes_witness :
  lines (handleDeleteLine true "b"
           (editing [lineAt "a" 1; lineAt "b" 5; lineAt "c" 9] 0))
  = [lineAt "a" 1; lineAt "c" 9].
Proof.
  refine (proj2 (proj2 (proj2 (handleDeleteLine_removes
            (editing [lineAt "a" 1; lineAt "b" 5; lineAt "c" 9] 0) "b")))
            1%nat (lineAt "b" 5) _ eq_refl eq_refl).
  repeat constructor; simpl; intuition discriminate.
Defined.

(** X4. Unique ids stay unique: deleting keeps them unique; an update
    without an [id] field, a nudge and a sync leave the list of ids as it
    is; [handleInsertAfter] and [appendLine] keep them unique whenever the
    id drawn is not in use.  ([handleInsertAfter] throws only on an index
    out of range.) *)
Theorem unique_ids_preserved :
  forall st : AppState,
    NoDup (ids st) ->
    (forall confirmed id0, NoDup (ids (handleDeleteLine confirmed id0 st))) /\
    (forall id0 updates,
       p_id updates = None -> ids (handleUpdateLine id0 updates st) = ids st) /\
    (forall line delta, ids (adjustTime line delta st) = ids st) /\
    (forall id0, ids (handleSync id0 st) = ids st) /\
    (forall index rnd n,
       ~ In (rnd n) (ids st) ->
       match fst (handleInsertAfter index st rnd n) with
       | Ok st' => NoDup (ids st')
       | Throw _ => ~ (index < length (lines st))%nat
       end) /\
    (forall rnd n,
       ~ In (rnd n) (ids st) ->
       match fst (appendLine st rnd n) with
       | Ok st' => NoDup (ids st')
       | Throw _ => False
       end).
Proof.
  intros st Hnd. unfold ids in *.
  split; [| split; [| split; [| split; [| split]]]].
  - intros [|] id0; [| exact Hnd]. unfold handleDeleteLine.
    rewrite lines_setLines. now apply filter_keeps_ids_unique.
  - intros id0 u Hu. unfold handleUpdateLine. rewrite lines_setLines.
    now apply map_id_update.
  - intros line delta. unfold adjustTime, handleUpdateLine.
    rewrite lines_setLines. now apply map_id_update.
  - intros id0. unfold handleSync. destruct (player st); [| reflexivity].
    unfold handleUpdateLine. rewrite lines_setLines. now apply map_id_update.
  - intros index rnd n Hfresh. unfold handleInsertAfter.
    destruct (nth_error (lines st) index) as [prev|] eqn:E.
    + unfold bind, generateId, ret. simpl.
      unfold JS.splice_insert. rewrite map_app. simpl.
      apply NoDup_Add with (a := rnd n)
                           (l := (map id (firstn (index + 1) (lines st)) ++
                                  map id (skipn (index + 1) (lines st)))%list).
      * apply Add_app.
      * rewrite <- map_app, firstn_skipn. now split.
    + simpl. apply nth_error_None in E. lia.
  - intros rnd n Hfresh. unfold appendLine, bind, generateId, ret. simpl.
    rewrite map_app. simpl.
    apply NoDup_Add with (a := rnd n) (l := (map id (lines st) ++ [])%list).
    + apply Add_app.
    + rewrite app_nil_r. now split.
Qed.

(** An instance. *)
Lemma unique_ids_preserved_witness :
  NoDup (ids (handleDeleteLine true "a"
                (editing [lineAt "a" 1; lineAt "b" 5] 0))).
Proof.
  refine (proj1 (unique_ids_preserved
                   (editing [lineAt "a" 1; lineAt "b" 5] 0) _) true "a").
  repeat constructor; simpl; intuition discriminate.
Defined.

(** X5. When the id drawn is not in use, inserting a line (after any valid
    index, or at the end) and then deleting that line gives back the state
    one started from. *)
Theorem insert_then_delete_restores :
  forall (st : AppState) (rnd : nat -> string) (n : nat),
    ~ In (rnd n) (ids st) ->
    (forall index,
       (index < length (lines st))%nat ->
       exists st', handleInsertAfter index st rnd n = (Ok st', S n) /\
                   handleDeleteLine true (rnd n) st' = st) /\
    (exists st', appendLine st rnd n = (Ok st', S n) /\
                 handleDeleteLine true (rnd n) st' = st).
Proof.
  intros st rnd n Hfresh. unfold ids in Hfresh.
  assert (Hdrop : forall l1 l2 x,
             (l1 ++ l2)%list = lines st -> id x = rnd n ->
             filter (fun line => negb (String.eqb (id line) (rnd n)))
                    (l1 ++ x :: l2) = lines st).
  { intros l1 l2 x E Hx. rewrite filter_app. simpl.
    rewrite Hx, String.eqb_refl. simpl. rewrite <- filter_app, E.
    now apply filter_drop_id. }
  split.
  - intros index Hidx. unfold handleInsertAfter.
    destruct (nth_error (lines st) index) as [prev|] eqn:E;
      [| apply nth_error_None in E; lia].
    eexists. split; [reflexivity |].
    unfold handleDeleteLine. rewrite lines_setLines. unfold JS.splice_insert.
    rewrite Hdrop; [now destruct st | apply firstn_skipn | reflexivity].
  - eexists. split; [reflexivity |].
    unfold handleDeleteLine. rewrite lines_setLines.
    rewrite Hdrop; [now destruct st | apply app_nil_r | reflexivity].
Qed.

(** An instance. *)
Lemma insert_then_delete_restores_witness :
  let st := editing [lineAt "a" 1; lineAt "b" 5] 3 in
  exists st', appendLine st (fun _ => "new") 0%nat = (Ok st', 1%nat) /\
              handleDeleteLine true "new" st' = st.
Proof.
  refine (proj2 (insert_then_delete_restores
                   (editing [lineAt "a" 1; lineAt "b" 5] 3)
                   (fun _ => "new") 0%nat _)).
  simpl. intuition discriminate.
Defined.

(** X6. Two updates of the same line, the first without an [id] field, are
    the single update with the merged fields, a field of the later update
    winning; updates of two different ids, neither changing an id, can be
    made in either order. *)
Theorem handleUpdateLine_composes :
  forall (st : AppState) (a b : string) (u v : PartialLyricLine),
    p_id u = None ->
    handleUpdateLine a v (handleUpdateLine a u st)
      = handleUpdateLine a (merge_updates u v) st /\
    (p_id v = None -> a <> b ->
     handleUpdateLine a u (handleUpdateLine b v st)
       = handleUpdateLine b v (handleUpdateLine a u st)).
Proof.
  intros st a b u v Hu. unfold handleUpdateLine.
  rewrite !lines_setLines. split.
  - destruct st as [s af tf ls m c pl]. unfold setLines. simpl. f_equal.
    rewrite map_map. apply map_ext. intros line.
    destruct (String.eqb (id line) a) eqn:E.
    + assert (E' : String.eqb (id (spread line u)) a = true).
      { simpl. now rewrite Hu. }
      rewrite E'. destruct line, u, v. unfold spread, merge_updates. simpl in *.
      subst. f_equal;
        repeat match goal with |- context [match ?x with _ => _ end] =>
                                 destruct x end; reflexivity.
    + now rewrite E.
  - intros Hv Hab.
    destruct st as [s af tf ls m c pl]. unfold setLines. simpl. f_equal.
    rewrite !map_map. apply map_ext. intros line.
    destruct (String.eqb (id line) a) eqn:Ea, (String.eqb (id line) b) eqn:Eb;
      simpl; rewrite ?Hu, ?Hv, ?Ea, ?Eb; try reflexivity.
    apply String.eqb_eq in Ea, Eb. congruence.
Qed.

(** An instance. *)
Lemma handleUpdateLine_composes_witness :
  let st := editing [lineAt "a" 1; lineAt "b" 5] 3 in
  let u := mkPartial None (Some 2) None None in
  let v := mkPartial None None (Some "la") None in
  handleUpdateLine "a" v (handleUpdateLine "a" u st)
    = handleUpdateLine "a" (merge_updates u v) st.
Proof.
  exact (proj1 (handleUpdateLine_composes
                  (editing [lineAt "a" 1; lineAt "b" 5] 3) "a" "b"
                  (mkPartial None (Some 2) None None)
                  (mkPartial None None (Some "la") None) eq_refl)).
Defined.

(** ** More on the active line *)

Lemma activeLineIndex_loop_lower (t : Q) (ls : list LyricLine) (i : Z) :
  (i - 1 <= activeLineIndex_loop t ls i (i - 1))%Z.
Proof. apply (activeLineIndex_loop_spec t ls i). Qed.

Lemma activeLineIndex_loop_mono (t1 t2 : Q) (ls : list LyricLine) :
  t1 <= t2 ->
  forall i : Z,
    (activeLineIndex_loop t1 ls i (i - 1)
     <= activeLineIndex_loop t2 ls i (i - 1))%Z.
Proof.
  intros Ht. induction ls as [|a ls IH]; intros i; simpl; [lia |].
  destruct (JS.leb (timestamp a) t1) eqn:E1.
  - assert (E2 : JS.leb (timestamp a) t2 = true).
    { apply leb_iff. apply leb_iff in E1. lra. }
    rewrite E2. specialize (IH (i + 1)%Z).
    now replace (i + 1 - 1)%Z with i in IH by lia.
  - destruct (JS.leb (timestamp a) t2); [| lia].
    pose proof (activeLineIndex_loop_lower t2 ls (i + 1)) as H.
    replace (i + 1 - 1)%Z with i in H by lia. lia.
Qed.

(** X7. With the lines fixed, the active-line index never decreases when
    the playback position moves forward. *)
Theorem activeLineIndex_monotone :
  forall (st : AppState) (t : Q),
    currentTime st <= t ->
    (activeLineIndex st <= activeLineIndex (setCurrentTime t st))%Z.
Proof.
  intros st t Ht. unfold activeLineIndex. simpl.
  exact (activeLineIndex_loop_mono (currentTime st) t (lines st) Ht 0%Z).
Qed.

(** An instance. *)
Lemma activeLineIndex_monotone_witness :
  (activeLineIndex (editing [lineAt "a" 0; lineAt "b" 10] 3)
   <= activeLineIndex
        (setCurrentTime 12 (editing [lineAt "a" 0; lineAt "b" 10] 3)))%Z.
Proof.
  apply activeLineIndex_monotone. vm_compute. discriminate.
Defined.

Lemma sorted_nth_le {A} (le : A -> A -> Prop) (l : list A) :
  StronglySorted le l ->
  forall i j a b, (i < j)%nat -> nth_error l i = Some a ->
                  nth_error l j = Some b -> le a b.
Proof.
  induction 1 as [|x l Hs IH Hall]; intros i j a b Hij Hi Hj.
  - now destruct i.
  - destruct j as [|j]; [lia |]. simpl in Hj.
    destruct i as [|i]; simpl in Hi.
    + injection Hi as <-. rewrite Forall_forall in Hall. apply Hall.
      eapply nth_error_In, Hj.
    + apply (IH i j); [lia | assumption | assumption].
Qed.

(** X8. When the lines are in ascending order of timestamp, a line has
    started (its timestamp is [<=] the playback position) exactly when it
    stands at or before the active line: the early exit of the scan misses
    no line. *)
Theorem activeLineIndex_sorted :
  forall st : AppState,
    StronglySorted (fun a b => timestamp a <= timestamp b) (lines st) ->
    forall (i : nat) (line : LyricLine),
      nth_error (lines st) i = Some line ->
      (timestamp line <= currentTime st
       <-> (Z.of_nat i <= activeLineIndex st)%Z).
Proof.
  intros st Hs i line Hi.
  pose proof (activeLineIndex_loop_spec (currentTime st) (lines st) 0%Z) as H.
  cbv zeta in H. change (0 - 1)%Z with (-1)%Z in H.
  change (activeLineIndex_loop (currentTime st) (lines st) 0 (-1))
    with (activeLineIndex st) in H.
  destruct H as (Hr & Hle & Hgt). split.
  - intros Hstarted.
    destruct (Z_le_gt_dec (Z.of_nat i) (activeLineIndex st)) as [|Hlt];
      [assumption | exfalso].
    assert (Hlen : (i < length (lines st))%nat).
    { apply nth_error_Some. now rewrite Hi. }
    destruct (nth_error (lines st) (Z.to_nat (activeLineIndex st + 1 - 0)))
      as [next|] eqn:En; [| apply nth_error_None in En; lia].
    pose proof (Hgt next eq_refl) as Hnext.
    destruct (Nat.eq_dec (Z.to_nat (activeLineIndex st + 1 - 0)) i) as [E|Hne].
    + rewrite E, Hi in En. injection En as ->. lra.
    + assert (Hord : timestamp next <= timestamp line).
      { apply (sorted_nth_le _ _ Hs (Z.to_nat (activeLineIndex st + 1 - 0)) i);
          [lia | assumption | assumption]. }
      lra.
  - intros Hidx. apply (Hle i line); [lia | exact Hi].
Qed.

(** An instance. *)
Lemma activeLineIndex_sorted_witness :
  timestamp (lineAt "b" 10) <= 12
  <-> (1 <= activeLineIndex (editing [lineAt "a" 0; lineAt "b" 10; lineAt "c" 20] 12))%Z.
Proof.
  refine (activeLineIndex_sorted
            (editing [lineAt "a" 0; lineAt "b" 10; lineAt "c" 20] 12) _
            1%nat (lineAt "b" 10) eq_refl).
  repeat constructor; simpl; discriminate.
Defined.

(** ** More on the serializer *)

Section SortedUnique.
Context {A : Type}.
Variable key : A -> Q.

Lemma sorted_perm_unique (l1 : list A) :
  forall l2,
    StronglySorted (fun a b => key a <= key b) l1 ->
    StronglySorted (fun a b => key a <= key b) l2 ->
    Permutation l1 l2 ->
    (forall x y, In x l1 -> In y l1 -> key x == key y -> x = y) ->
    l1 = l2.
Proof.
  induction l1 as [|a l1 IH]; intros l2 H1 H2 Hp Hd.
  - apply Permutation_nil in Hp. now subst.
  - destruct l2 as [|b l2];
      [apply Permutation_sym, Permutation_nil in Hp; discriminate |].
    inversion H1 as [|? ? Hs1 Ha]; subst.
    inversion H2 as [|? ? Hs2 Hb]; subst.
    rewrite Forall_forall in Ha, Hb.
    assert (Hab : a = b).
    { assert (Ia : In a (b :: l2))
        by (apply (Permutation_in _ Hp); now left).
      assert (Ib : In b (a :: l1))
        by (apply (Permutation_in _ (Permutation_sym Hp)); now left).
      destruct Ia as [<- | Ia]; [reflexivity |].
      destruct Ib as [<- | Ib]; [reflexivity |].
      apply Hd; [now left | | ].
      - apply (Permutation_in _ (Permutation_sym Hp)). now left.
      - apply Qle_antisym; [now apply Ha | now apply Hb]. }
    subst b. f_equal. apply IH; try assumption.
    + now apply Permutation_cons_inv in Hp.
    + intros x y Hx Hy. apply Hd; now right.
Qed.

End SortedUnique.

Lemma sort_sorted_input {A} (key : A -> Q) (l : list A) :
  StronglySorted (fun a b => key a <= key b) l ->
  JS.sort (fun a b => key a - key b) l = l.
Proof.
  induction 1 as [|x l Hs IH Hall]; [reflexivity |].
  simpl. rewrite IH. destruct l as [|y r]; [reflexivity |].
  simpl. inversion Hall as [|? ? Hxy _]; subst.
  assert (E : JS.ltb 0 (key x - key y) = false)
    by (apply ltb_false_iff; lra).
  now rewrite E.
Qed.

(** X9. When the lines are already in ascending order of timestamp, the
    export lists them in display order, lines with equal timestamps
    included. *)
Theorem generateLrcOutput_sorted_keeps_order :
  forall st : AppState,
    StronglySorted (fun a b => timestamp a <= timestamp b) (lines st) ->
    generateLrcOutput st =
      ("[ti:" ++ title (meta st) ++ "]" ++ nl ++
       "[ar:" ++ artist (meta st) ++ "]" ++ nl ++
       "[al:" ++ album (meta st) ++ "]" ++ nl ++
       "[by:" ++ by_ (meta st) ++ "]" ++ nl ++
       String.concat nl
         (map (fun line => formatLrcTime (timestamp line) ++ text line)
              (lines st)))%string.
Proof.
  intros st Hs. unfold generateLrcOutput, JS.join.
  rewrite (sort_sorted_input timestamp (lines st) Hs).
  now rewrite !append_assoc.
Qed.

(** An instance. *)
Lemma generateLrcOutput_sorted_keeps_order_witness :
  generateLrcOutput (editing [mkLine "1" 2 "a" None; mkLine "2" 2 "b" None] 0)
  = ("[ti:]" ++ nl ++ "[ar:]" ++ nl ++ "[al:]" ++ nl ++
     "[by:LyricalSync AI]" ++ nl ++
     "[00:02.00]a" ++ nl ++ "[00:02.00]b")%string.
Proof.
  rewrite (generateLrcOutput_sorted_keeps_order
             (editing [mkLine "1" 2 "a" None; mkLine "2" 2 "b" None] 0)).
  - reflexivity.
  - repeat constructor; simpl; discriminate.
Defined.

(** X10. When no two different lines share a timestamp, the export does not
    depend on the display order: any rearrangement of the lines is exported
    as the same text. *)
Theorem generateLrcOutput_order_independent :
  forall (st : AppState) (ls : list LyricLine),
    Permutation (lines st) ls ->
    (forall x y, In x (lines st) -> In y (lines st) ->
                 timestamp x == timestamp y -> x = y) ->
    generateLrcOutput (setLines ls st) = generateLrcOutput st.
Proof.
  intros st ls Hp Hd.
  assert (E : JS.sort (fun a b => timestamp a - timestamp b) ls
              = JS.sort (fun a b => timestamp a - timestamp b) (lines st)).
  { symmetry. apply (sorted_perm_unique timestamp).
    - apply sort_sorted.
    - apply sort_sorted.
    - rewrite !sort_perm. exact Hp.
    - intros x y Hx Hy. apply Hd.
      + apply (Permutation_in _ (sort_perm timestamp (lines st))), Hx.
      + apply (Permutation_in _ (sort_perm timestamp (lines st))), Hy. }
  unfold generateLrcOutput. rewrite lines_setLines, E. reflexivity.
Qed.

(** An instance. *)
Lemma generateLrcOutput_order_independent_witness :
  generateLrcOutput
    (setLines [lineAt "b" 5; lineAt "a" 1]
              (editing [lineAt "a" 1; lineAt "b" 5] 0))
  = generateLrcOutput (editing [lineAt "a" 1; lineAt "b" 5] 0).
Proof.
  apply generateLrcOutput_order_independent.
  - apply perm_swap.
  - intros x y [<- | [<- | []]] [<- | [<- | []]] H;
      try reflexivity; vm_compute in H; discriminate.
Defined.

(** ** More on the sync controller *)


Lemma analyze_returns (outcome : AiOutcome) (rawLyrics : string)
    (rnd : nat -> string) (n : nat) :
  exists ls n1, analyzeLyricsWithAudio outcome rawLyrics rnd n = (Ok ls, n1).
Proof.
  unfold analyzeLyricsWithAudio, try_catch.
  destruct (match outcome with
            | CallRejected e | InvalidJson e | NoLinesArray e => throw e
            | EmptyText => throw "No response from AI"
            | Lines entries => mapM mapEntry entries
            end rnd n) as [[ls|e] n1].
  - now exists ls, n1.
  - rewrite fallbackLines_manualLines.
    destruct (manualLines_spec rawLyrics rnd n1) as (rawLines & Hm & _).
    rewrite Hm. now eexists _, _.
Qed.



Lemma attempt_cases (env : Env) (rnd : nat -> string) (n : nat) :
  (~ attempt_fails env /\ exists ls n1,
     (_audioB64 <- lift (fileToBase64 env) ;;
      textContent <- lift (text_first env) ;;
      analyzeLyricsWithAudio (ai env) textContent) rnd n = (Ok ls, n1)) \/
  (attempt_fails env /\ exists e,
     (_audioB64 <- lift (fileToBase64 env) ;;
      textContent <- lift (text_first env) ;;
      analyzeLyricsWithAudio (ai env) textContent) rnd n = (Throw e, n)).
Proof.
  unfold attempt_fails, bind, lift.
  destruct (fileToBase64 env) as [b64|e1].
  - destruct (text_first env) as [textContent|e2].
    + left. split; [intros [[e He] | [e He]]; discriminate |].
      apply analyze_returns.
    + right. split; [right; now exists e2 | now exists e2].
  - right. split; [left; now exists e1 | now exists e1].
Qed.

Lemma handleAutoProcess_cases (env : Env) (st : AppState)
    (rnd : nat -> string) (n : nat) :
  exists res, handleAutoProcess env st rnd n = res /\
    (((audioFile st = None \/ textFile st = None) /\ res = (st, [], n)) \/
     (exists audio lyrics,
        audioFile st = Some audio /\ textFile st = Some lyrics /\
        (25 * 1024 * 1024 < file_size audio)%N /\
        res = (st, [tooLargeMessage], n)) \/
     (exists audio lyrics,
        audioFile st = Some audio /\ textFile st = Some lyrics /\
        (file_size audio <= 25 * 1024 * 1024)%N /\
        ((~ attempt_fails env /\ exists ls n1,
            res = (setStatus EDITING (setLines ls (setStatus PROCESSING st)),
                   [], n1)) \/
         (attempt_fails env /\ exists msg,
            (exists t ls n1, text_again env = Ok t /\
               res = (setStatus EDITING
                        (setLines ls (setStatus PROCESSING st)),
                      [failureMessage msg], n1)) \/
            (exists e, text_again env = Throw e /\
               res = (setStatus IDLE (setStatus PROCESSING st),
                      [failureMessage msg], n)))))).
Proof.
  eexists. split; [reflexivity |].
  unfold handleAutoProcess. cbv zeta.
  destruct (audioFile st) as [audio|] eqn:Ha; [| left; split; auto].
  destruct (textFile st) as [lyrics|] eqn:Ht; [| left; split; auto].
  right.
  destruct (25 * 1024 * 1024 <? file_size audio)%N eqn:Hs.
  { left. exists audio, lyrics. apply N.ltb_lt in Hs. now repeat split. }
  right. exists audio, lyrics. apply N.ltb_ge in Hs.
  split; [reflexivity | split; [reflexivity | split; [exact Hs |]]].
  destruct (attempt_cases env rnd n)
    as [(Hok & ls & n1 & Hatt) | (Hfail & e & Hatt)];
    rewrite Hatt; cbv beta iota.
  - left. split; [exact Hok | now exists ls, n1].
  - right. split; [exact Hfail |]. eexists.
    destruct (text_again env) as [t|e3].
    + destruct (manualLines_spec t rnd n) as (rl & Hm & _). rewrite Hm.
      left. now exists t, rl, (n + length rl)%nat.
    + right. now exists e3.
Qed.

(** X12. [handleAutoProcess] never changes the files, the metadata or the
    playback position.  With a file missing it does nothing; with an audio
    file above 25 MiB it shows the size message and does nothing else.
    Otherwise it ends in [EDITING] or [IDLE], never in [PROCESSING]: in
    [IDLE], with the lines untouched, exactly when encoding or the first
    read failed and the second read of the lyrics failed too; and it shows
    an alert exactly when encoding or the first read failed. *)
Theorem handleAutoProcess_settles :
  forall (env : Env) (st : AppState) (rnd : nat -> string) (n : nat),
    let st' := fst (fst (handleAutoProcess env st rnd n)) in
    let shown := snd (fst (handleAutoProcess env st rnd n)) in
    (audioFile st' = audioFile st /\ textFile st' = textFile st /\
     meta st' = meta st /\ currentTime st' = currentTime st /\
     player st' = player st) /\
    (audioFile st = None \/ textFile st = None ->
     handleAutoProcess env st rnd n = (st, [], n)) /\
    (forall audio lyrics,
       audioFile st = Some audio -> textFile st = Some lyrics ->
       ((25 * 1024 * 1024 < file_size audio)%N ->
        handleAutoProcess env st rnd n = (st, [tooLargeMessage], n)) /\
       ((file_size audio <= 25 * 1024 * 1024)%N ->
        (status st' = EDITING \/ status st' = IDLE) /\
        (status st' = IDLE <->
         attempt_fails env /\ exists e, text_again env = Throw e) /\
        (status st' = IDLE -> lines st' = lines st) /\
        (shown = [] <-> ~ attempt_fails env))).
Proof.
  intros env st rnd n.
  destruct (handleAutoProcess_cases env st rnd n) as (res & -> & Hcases).
  cbv zeta.
  destruct Hcases as
    [[Hnone ->] |
     [(audio & lyrics & Ha & Ht & Hbig & ->) |
      (audio & lyrics & Ha & Ht & Hsmall &
       [(Hok & ls & n1 & ->) |
        (Hfail & msg & [(t & ls & n1 & Hg & ->) | (e & Hg & ->)])])]];
    simpl.
  - split; [now repeat split |]. split; [reflexivity |].
    intros a l Ha Ht. destruct Hnone as [H | H]; congruence.
  - split; [now repeat split |].
    split; [intros [H | H]; congruence |].
    intros a l Ha' Ht'. assert (a = audio) by congruence. subst a.
    split; [reflexivity | intros Hle; lia].
  - split; [now repeat split |].
    split; [intros [H | H]; congruence |].
    intros a l Ha' Ht'. assert (a = audio) by congruence. subst a.
    split; [intros Hlt; lia |]. intros _.
    split; [now left |]. split; [| split].
    + split; [discriminate | intros [H _]; contradiction].
    + discriminate.
    + split; [now intros _ | reflexivity].
  - split; [now repeat split |].
    split; [intros [H | H]; congruence |].
    intros a l Ha' Ht'. assert (a = audio) by congruence. subst a.
    split; [intros Hlt; lia |]. intros _.
    split; [now left |]. split; [| split].
    + split; [discriminate | intros [_ [e He]]; congruence].
    + discriminate.
    + split; [discriminate | intros H; contradiction].
  - split; [now repeat split |].
    split; [intros [H | H]; congruence |].
    intros a l Ha' Ht'. assert (a = audio) by congruence. subst a.
    split; [intros Hlt; lia |]. intros _.
    split; [now right |]. split; [| split].
    + split; [| reflexivity]. intros _. split; [exact Hfail | now exists e].
    + reflexivity.
    + split; [discriminate | intros H; contradiction].
Qed.

(** An instance. *)
Lemma handleAutoProcess_settles_witness :
  let env := mkEnv (Throw "encoding failed") (Ok "la") (Throw "gone") EmptyText in
  status (fst (fst (handleAutoProcess env ready (fun _ => "x") 0%nat))) = IDLE.
Proof.
  cbv zeta.
  apply (proj2 (proj2 (handleAutoProcess_settles
           (mkEnv (Throw "encoding failed") (Ok "la") (Throw "gone") EmptyText)
           ready (fun _ => "x") 0%nat))
           (mkFile "song.mp3" "audio/mpeg" 4000000)
           (mkFile "song.txt" "text/plain" 40) eq_refl eq_refl).
  - vm_compute. discriminate.
  - split; [left; now exists "encoding failed" | now exists "gone"].
Defined.

(** ** Trimming *)

Lemma NoDup_map_injective {A B} (f : A -> B) (l : list A) :
  (forall x y, f x = f y -> x = y) -> NoDup l -> NoDup (map f l).
Proof.
  intros Hinj. induction 1 as [|a l Hn Hd IH]; simpl; constructor.
  - intros Hin. apply in_map_iff in Hin. destruct Hin as (x & Hx & Hin).
    apply Hinj in Hx. now subst x.
  - exact IH.
Qed.

(** X13. Every line the manual fallback builds has a text that is not
    empty, neither begins nor ends with a white-space character (of
    ECMAScript's white space and line terminators, U+3000 and U+00A0 among
    them), is left as it is by trimming it again, and holds no line feed;
    the ids of the lines are distinct whenever the ids drawn are. *)
Theorem manualLines_texts_are_clean :
  forall (text0 : string) (rnd : nat -> string) (n : nat),
    exists rawLines : list LyricLine,
      manualLines text0 rnd n = (Ok rawLines, (n + length rawLines)%nat) /\
      Forall (fun line =>
                text line <> "" /\
                ~ starts_with_ws (text line) /\
                ~ ends_with_ws (text line) /\
                JS.trim (text line) = text line /\
                count_char LF (text line) = O)
             rawLines /\
      ((forall i j, rnd i = rnd j -> i = j) -> NoDup (map id rawLines)).
Proof.
  intros text0 rnd n.
  destruct (manualLines_spec text0 rnd n) as (rawLines & Hrun & Htext & Hid & _).
  exists rawLines. split; [exact Hrun | split].
  - assert (H : Forall (fun t => t <> "" /\ ~ starts_with_ws t /\
                                 ~ ends_with_ws t /\ JS.trim t = t /\
                                 count_char LF t = O) (map text rawLines)).
    { rewrite Htext. unfold keptLines. apply Forall_map.
      apply Forall_forall. intros l Hl. apply filter_In in Hl.
      destruct Hl as [Hin Hnb].
      destruct (trim_spec l) as (_ & _ & _ & _ & _ & Hs & He).
      split; [| split; [exact Hs | split; [exact He | split]]].
      - apply negb_true_iff, String.eqb_neq in Hnb. exact Hnb.
      - apply trim_idem.
      - pose proof (split_parts_no_sep LF text0) as Hp.
        rewrite Forall_forall in Hp. specialize (Hp l Hin).
        pose proof (count_char_trim LF l). lia. }
    rewrite Forall_map in H. exact H.
  - intros Hinj. rewrite Hid. apply NoDup_map_injective.
    + exact Hinj.
    + apply seq_NoDup.
Qed.

(** ** File names *)






(** ** MIME types *)

Lemma lower_idem (c : ascii) : JS.lower (JS.lower c) = JS.lower c.
Proof.
  unfold JS.lower.
  destruct ((65 <=? N_of_ascii c) && (N_of_ascii c <=? 90))%N eqn:E;
    [| now rewrite E].
  apply andb_true_iff in E. destruct E as [E1 E2].
  apply N.leb_le in E1, E2.
  rewrite N_ascii_embedding by lia.
  destruct ((65 <=? N_of_ascii c + 32) && (N_of_ascii c + 32 <=? 90))%N eqn:E;
    [| reflexivity].
  apply andb_true_iff in E. destruct E as [_ E]. apply N.leb_le in E. lia.
Qed.

Lemma toLowerCase_idem (s : string) :
  JS.toLowerCase (JS.toLowerCase s) = JS.toLowerCase s.
Proof.
  induction s as [|c r IH]; simpl; [reflexivity |]. now rewrite lower_idem, IH.
Qed.

Lemma lower_dot (c : ascii) : Ascii.eqb (JS.lower c) "." = Ascii.eqb c ".".
Proof.
  unfold JS.lower.
  destruct ((65 <=? N_of_ascii c) && (N_of_ascii c <=? 90))%N eqn:E;
    [| reflexivity].
  apply andb_true_iff in E. destruct E as [E1 E2]. apply N.leb_le in E1, E2.
  destruct (Ascii.eqb c ".") eqn:Ec.
  - apply Ascii.eqb_eq in Ec. subst c. simpl in E1. lia.
  - apply Ascii.eqb_neq. intros H.
    apply (f_equal N_of_ascii) in H. rewrite N_ascii_embedding in H by lia.
    simpl in H. lia.
Qed.

Lemma count_dot_toLowerCase (s : string) :
  count_char "." (JS.toLowerCase s) = count_char "." s.
Proof.
  induction s as [|c r IH]; simpl; [reflexivity |]. now rewrite lower_dot, IH.
Qed.

Lemma getMime_of_ext (base ext : string) :
  count_char "." ext = O ->
  Utils.getMimeTypeFromFilename (base ++ String "." ext) =
    match Utils.mimeMap (JS.toLowerCase ext) with
    | Some v => v
    | None => Utils.MimeString "audio/mp3"
    end.
Proof.
  intros Hc. unfold Utils.getMimeTypeFromFilename.
  rewrite split_app_sep, (split_no_sep "." ext Hc).
  rewrite last_app_nonempty by discriminate. simpl last.
  rewrite length_app, length_split. simpl.
  now replace (count_char "." base + 1 =? 0)%nat with false
    by (symmetry; apply Nat.eqb_neq; lia).
Qed.


Lemma mimeMap_lower (k : string) :
  JS.toLowerCase k = k ->
  match Utils.mimeMap k with
  | Some (Utils.MimeString s) => In s mimeTypes
  | Some (Utils.Inherited key) =>
      key = k /\ (k = "constructor" \/ k = "__proto__")
  | None => True
  end.
Proof.
  intros Hk. unfold Utils.mimeMap.
  repeat match goal with
         | |- context [if String.eqb k ?x then _ else _] =>
             destruct (String.eqb k x); [simpl; tauto |]
         end.
  destruct (existsb (String.eqb k) Utils.inheritedKeys) eqn:E; [| exact I].
  split; [reflexivity |].
  apply existsb_exists in E. destruct E as (x & Hin & Hx).
  apply String.eqb_eq in Hx. subst x. simpl in Hin.
  repeat match goal with
         | H : _ \/ _ |- _ => destruct H as [H | H]
         end;
    try (subst k; tauto); try contradiction;
    subst k; vm_compute in Hk; discriminate.
Qed.

(** X15. [getMimeTypeFromFilename] returns [audio/mp3] for a name without
    a dot; for a name with one, it looks up the part after the last dot,
    lower-cased, so the case of the extension does not matter; and it
    always returns one of eight MIME strings, except for the extensions
    [constructor] and [__proto__] (in any case), where the lookup reaches
    [Object.prototype] and the value returned is not a string. *)
Theorem getMimeTypeFromFilename_cases :
  (forall filename,
     count_char "." filename = O ->
     Utils.getMimeTypeFromFilename filename = Utils.MimeString "audio/mp3") /\
  (forall base ext,
     count_char "." ext = O ->
     Utils.getMimeTypeFromFilename (base ++ "." ++ ext) =
       match Utils.mimeMap (JS.toLowerCase ext) with
       | Some v => v
       | None => Utils.MimeString "audio/mp3"
       end /\
     Utils.getMimeTypeFromFilename (base ++ "." ++ JS.toLowerCase ext) =
       Utils.getMimeTypeFromFilename (base ++ "." ++ ext)) /\
  (forall filename,
     match Utils.getMimeTypeFromFilename filename with
     | Utils.MimeString s => In s mimeTypes
     | Utils.Inherited key => key = "constructor" \/ key = "__proto__"
     end).
Proof.
  split; [| split].
  - intros f Hc. unfold Utils.getMimeTypeFromFilename.
    now rewrite (split_no_sep "." f Hc).
  - intros base ext Hc.
    change (base ++ "." ++ ext)%string with (base ++ String "." ext)%string.
    change (base ++ "." ++ JS.toLowerCase ext)%string
      with (base ++ String "." (JS.toLowerCase ext))%string.
    rewrite (getMime_of_ext base ext Hc).
    rewrite (getMime_of_ext base (JS.toLowerCase ext))
      by (now rewrite count_dot_toLowerCase).
    now rewrite toLowerCase_idem.
  - intros f. unfold Utils.getMimeTypeFromFilename.
    destruct (length (JS.split "." f) =? 1)%nat; [simpl; tauto |].
    pose proof (mimeMap_lower (JS.toLowerCase (last (JS.split "." f) ""))
                  (toLowerCase_idem _)) as H.
    destruct (Utils.mimeMap (JS.toLowerCase (last (JS.split "." f) "")))
      as [[s | key] |]; [exact H | | simpl; tauto].
    destruct H as [-> H]. exact H.
Qed.

(** An instance. *)
Lemma getMimeTypeFromFilename_cases_witness :
  Utils.getMimeTypeFromFilename "My.Song.FLAC" = Utils.MimeString "audio/flac".
Proof.
  exact (proj1 (proj1 (proj2 getMimeTypeFromFilename_cases) "My.Song" "FLAC"
                  eq_refl)).
Defined.


